(** * The Auth module of react-native-firebase: state bridge and phone
      verification demultiplexer

    Shallow embedding of [src/lib/modules/auth/index.js].  The class [Auth]
    owns two mutable fields, [_user] and [_authResult], and talks to the
    process-wide [SharedEventEmitter].  Both are threaded explicitly through a
    small state-and-exception monad; a [throw] and a nested [emit] keep every
    mutation made before them, as in JavaScript. *)

From Stdlib Require Import String Ascii List Bool Arith Lia.
Import ListNotations.
Local Open Scope string_scope.
Local Open Scope list_scope.

Set Implicit Arguments.

(* ================================================================== *)
(** ** Data model *)
(* ================================================================== *)

(** [NativeUser] of [./types]: the raw user payload of the native layer.  The
    module never looks inside it; the unique identifier and the provider
    linkage are what the boundary promises. *)
Record NativeUser : Type := mkNativeUser {
  uid : string;
  providerData : list string
}.

(** [additionalUserInfo] is handed through untouched. *)
Definition AdditionalUserInfo : Type := list (string * string).

(** [NativeUserCredential] of [./types]. *)
Record NativeUserCredential : Type := mkNativeUserCredential {
  nuc_user : NativeUser;
  nuc_additionalUserInfo : option AdditionalUserInfo
}.

(** Modelled from the spec: the wrapper class [User] of [./User] (the result
    adapter [adaptUser]).  [new User(auth, nativeUser)] allocates a fresh
    object around the raw payload; [ref] is the identity of that object, so
    that "the same snapshot" can be told from "an equal snapshot". *)
Record User : Type := mkUser {
  ref : nat;
  native : NativeUser
}.

(** Modelled from the spec: the field accessor [User.uid] reads the wrapped
    payload. *)
Definition User_uid (u : User) : string := uid (native u).

(** [UserCredential]: what [_setUserCredential] returns. *)
Record UserCredential : Type := mkUserCredential {
  additionalUserInfo : option AdditionalUserInfo;
  user : User
}.

(** Modelled from the spec: [ConfirmationResult] of
    [./phone/ConfirmationResult], built from the verification id that the
    provider returns. *)
Record ConfirmationResult : Type := mkConfirmationResult {
  verificationId : string
}.

(** The [state] object carried by a phone event; opaque to this module. *)
Definition PhoneState : Type := list (string * string).

(** Modelled from the spec: the four phase discriminators of the external
    phone channel (section 6 of the specification). *)
Inductive Phase : Type := codeSent | autoVerifyTimeout | autoVerified | error.

Definition phase_name (p : Phase) : string :=
  match p with
  | codeSent => "codeSent"
  | autoVerifyTimeout => "autoVerifyTimeout"
  | autoVerified => "autoVerified"
  | error => "error"
  end.

Definition is_terminal (p : Phase) : bool :=
  match p with
  | autoVerified | error => true
  | codeSent | autoVerifyTimeout => false
  end.

Definition Phase_eq_dec (p q : Phase) : {p = q} + {p <> q}.
Proof. decide equality. Defined.

(** Payloads that travel over the emitter, by Flow type:
    [AuthState = { user?: NativeUser }] for the two native auth topics, the
    phone event object [{ requestKey, type, state }], [User | null] for the
    three public topics, and [event.state] for the private phone topics. *)
Inductive Value : Type :=
| VAuthState (user : option NativeUser)
| VPhoneEvent (requestKey type : string) (state : PhoneState)
| VUser (u : option User)
| VPhoneState (state : PhoneState).

(** Functions subscribed to the emitter, compared by reference as
    [removeListener] does.  The first three are the arrow functions that the
    constructor installs (lines 69, 82 and 92); [Verification h rk p] is the
    handler that verification handle [h] keeps on the private topic of
    request key [rk] and phase [p]; [Fn id] is a function supplied by the
    application. *)
Inductive Listener : Type :=
| OnNativeAuthState
| OnNativePhoneAuthState
| OnNativeIdToken
| Verification (h : nat) (requestKey : string) (p : Phase)
| Fn (id : nat).

Definition Listener_eq_dec (a b : Listener) : {a = b} + {a <> b}.
Proof.
  decide equality;
    first [ apply Nat.eq_dec | apply string_dec | apply Phase_eq_dec ].
Defined.

(** JavaScript errors that can surface here. *)
Inductive Error : Type :=
| JsError (message : string)            (* [new Error(message)] *)
| NativeError (code message : string)   (* a provider rejection *)
| TypeError.                            (* a payload outside its Flow type *)

(** The module instance together with the emitter it shares, and three
    observation logs that the code itself does not keep: every [emit] call,
    every call of an application function, every phase handed to the
    observers of a verification handle. *)
Record State : Type := mkState {
  _user : option User;
  _authResult : bool;
  _languageCode : string;
  subscriptions : list (string * Listener);
  next_ref : nat;
  emitted : list (string * Value);
  invoked : list (nat * Value);
  observed : list (nat * Phase * Value)
}.

Definition currentUser (st : State) : option User := _user st.

(* ================================================================== *)
(** ** A state and exception monad *)
(* ================================================================== *)

Inductive Outcome (A : Type) : Type :=
| Returned (a : A)
| Thrown (e : Error)
| Diverged.   (* the nesting budget of [emit] ran out *)

Arguments Returned {A} a.
Arguments Thrown {A} e.
Arguments Diverged {A}.

Definition M (A : Type) : Type := State -> Outcome A * State.

Definition ret {A : Type} (a : A) : M A := fun st => (Returned a, st).

Definition bind {A B : Type} (m : M A) (k : A -> M B) : M B :=
  fun st =>
    match m st with
    | (Returned a, st') => k a st'
    | (Thrown e, st') => (Thrown e, st')
    | (Diverged, st') => (Diverged, st')
    end.

Definition throw {A : Type} (e : Error) : M A := fun st => (Thrown e, st).

Definition gets {A : Type} (f : State -> A) : M A := fun st => (Returned (f st), st).

Definition modify (f : State -> State) : M unit := fun st => (Returned tt, f st).

Declare Scope auth_scope.
Delimit Scope auth_scope with auth.
Notation "x <- m ;; k" := (bind m (fun x => k))
  (at level 61, m at next level, right associativity) : auth_scope.
Notation "m ;; k" := (bind m (fun _ => k))
  (at level 61, right associativity) : auth_scope.
Local Open Scope auth_scope.

(** Field updates. *)
Definition set_user (u : option User) (st : State) : State :=
  mkState u (_authResult st) (_languageCode st) (subscriptions st)
          (next_ref st) (emitted st) (invoked st) (observed st).

Definition set_authResult (b : bool) (st : State) : State :=
  mkState (_user st) b (_languageCode st) (subscriptions st)
          (next_ref st) (emitted st) (invoked st) (observed st).

Definition set_languageCode (c : string) (st : State) : State :=
  mkState (_user st) (_authResult st) c (subscriptions st)
          (next_ref st) (emitted st) (invoked st) (observed st).

Definition set_subscriptions (r : list (string * Listener)) (st : State) : State :=
  mkState (_user st) (_authResult st) (_languageCode st) r
          (next_ref st) (emitted st) (invoked st) (observed st).

Definition set_next_ref (n : nat) (st : State) : State :=
  mkState (_user st) (_authResult st) (_languageCode st) (subscriptions st)
          n (emitted st) (invoked st) (observed st).

Definition log_emit (topic : string) (v : Value) (st : State) : State :=
  mkState (_user st) (_authResult st) (_languageCode st) (subscriptions st)
          (next_ref st) (emitted st ++ [(topic, v)]) (invoked st) (observed st).

Definition log_call (id : nat) (v : Value) (st : State) : State :=
  mkState (_user st) (_authResult st) (_languageCode st) (subscriptions st)
          (next_ref st) (emitted st) (invoked st ++ [(id, v)]) (observed st).

Definition log_phase (h : nat) (p : Phase) (v : Value) (st : State) : State :=
  mkState (_user st) (_authResult st) (_languageCode st) (subscriptions st)
          (next_ref st) (emitted st) (invoked st) (observed st ++ [(h, p, v)]).

(* ================================================================== *)
(** ** The shared event emitter *)
(* ================================================================== *)

(** Modelled from the spec: [SharedEventEmitter] of [../../utils/events], the
    Event Bus of section 4.1.  Several listeners per topic, delivery in
    subscription order, no prior registration of topics, and a removal that
    is idempotent: [removeListener] drops every registration of that function
    on that topic, so that a second call finds nothing left to drop. *)
Module SharedEventEmitter.

Definition registry : Type := list (string * Listener).

Definition same (topic : string) (l : Listener) (e : string * Listener) : bool :=
  (if string_dec (fst e) topic then true else false)
  && (if Listener_eq_dec (snd e) l then true else false).

Definition addListener (topic : string) (l : Listener) (r : registry) : registry :=
  r ++ [(topic, l)].

Definition removeListener (topic : string) (l : Listener) (r : registry) : registry :=
  filter (fun e => negb (same topic l e)) r.

(** The listeners that an [emit] on [topic] calls, in order. *)
Definition listeners (topic : string) (r : registry) : list Listener :=
  map snd (filter (fun e => if string_dec (fst e) topic then true else false) r).

End SharedEventEmitter.

Definition addListener (topic : string) (l : Listener) : M unit :=
  modify (fun st =>
    set_subscriptions (SharedEventEmitter.addListener topic l (subscriptions st)) st).

Definition removeListener (topic : string) (l : Listener) : M unit :=
  modify (fun st =>
    set_subscriptions (SharedEventEmitter.removeListener topic l (subscriptions st)) st).

(** The event key that the constructor builds at line 83:
    [`phone:auth:${event.requestKey}:${event.type}`]. *)
Definition phone_event_key (requestKey type : string) : string :=
  "phone:auth:" ++ requestKey ++ ":" ++ type.

(** Follows the spec's words (section 4.4): the private topic is
    ["phone-auth:" + requestKey + ":" + phase]. *)
Definition spec_phone_topic (requestKey phase : string) : string :=
  "phone-auth:" ++ requestKey ++ ":" ++ phase.

(** A promise that has settled, and [promise.then(k)] with no rejection
    handler: a rejection skips [k] and is passed on as it is; an exception
    thrown by [k] becomes the rejection of the new promise. *)
Inductive Settled (A : Type) : Type :=
| Resolved (a : A)
| Rejected (e : Error).

Arguments Resolved {A} a.
Arguments Rejected {A} e.

Definition then_ {A B : Type} (p : Settled A) (k : A -> M B) : M (Settled B) :=
  match p with
  | Rejected e => ret (Rejected e)
  | Resolved a =>
      fun st =>
        match k a st with
        | (Returned b, st') => (Returned (Resolved b), st')
        | (Thrown e, st') => (Returned (Rejected e), st')
        | (Diverged, st') => (Diverged, st')
        end
  end.

(** What a listener registration hands back: the closure that calls
    [SharedEventEmitter.removeListener(topic, listener)] with the topic and
    the function it captured. *)
Record Unsubscribe : Type := mkUnsubscribe {
  un_topic : string;
  un_listener : Listener
}.

Definition unsubscribe (u : Unsubscribe) : M unit :=
  removeListener (un_topic u) (un_listener u).

(** The three kinds of event of the native channel ([NATIVE_EVENTS]). *)
Inductive NativeEvent : Type :=
| auth_state_changed (user : option NativeUser)
| auth_id_token_changed (user : option NativeUser)
| phone_auth_state_changed (requestKey type : string) (state : PhoneState).

Definition native_name (e : NativeEvent) : string :=
  match e with
  | auth_state_changed _ => "auth_state_changed"
  | auth_id_token_changed _ => "auth_id_token_changed"
  | phone_auth_state_changed _ _ _ => "phone_auth_state_changed"
  end.

Definition native_payload (e : NativeEvent) : Value :=
  match e with
  | auth_state_changed u => VAuthState u
  | auth_id_token_changed u => VAuthState u
  | phone_auth_state_changed rk ty s => VPhoneEvent rk ty s
  end.

(** Modelled from the spec: once the provider has acknowledged a verification
    and yielded the request key, the handle subscribes to the four private
    topics of that key (section 4.4). *)
Definition verificationStarted (h : nat) (rk : string) : M unit :=
  addListener (phone_event_key rk (phase_name codeSent)) (Verification h rk codeSent) ;;
  addListener (phone_event_key rk (phase_name autoVerifyTimeout))
              (Verification h rk autoVerifyTimeout) ;;
  addListener (phone_event_key rk (phase_name autoVerified))
              (Verification h rk autoVerified) ;;
  addListener (phone_event_key rk (phase_name error)) (Verification h rk error).

(** A concrete naming for examples: the default application. *)
Definition default_name (name : string) : string := "[DEFAULT]-" ++ name.

Definition default_message (namespace method : string) : string :=
  "firebase." ++ namespace ++ "()." ++ method ++ "() is unsupported by the native Firebase SDKs.".

Definition run {A : Type} (m : M A) (st : State) : State := snd (m st).

(* ================================================================== *)
(** ** The class [Auth] *)
(* ================================================================== *)

Section AuthModule.

(** [getAppEventName(this, name)] of [../../utils/events] for this module
    instance, and the message builder
    [INTERNALS.STRINGS.ERROR_UNSUPPORTED_MODULE_METHOD] of
    [../../utils/internals]: both are outside this file and stay
    parameters. *)
Variable getAppEventName : string -> string.
Variable ERROR_UNSUPPORTED_MODULE_METHOD : string -> string -> string.

Section Handlers.

(** [SharedEventEmitter.emit] one nesting level further down. *)
Variable emit : string -> Value -> M unit.

Definition new_User (nu : NativeUser) : M User :=
  fun st => (Returned (mkUser (next_ref st) nu), set_next_ref (S (next_ref st)) st).

(** Lines 105-110. *)
Definition _setUser (user : option NativeUser) : M (option User) :=
  modify (set_authResult true) ;;
  u <- match user with
       | Some nu => (x <- new_User nu ;; ret (Some x))
       | None => ret None
       end ;;
  modify (set_user u) ;;
  cur <- gets _user ;;
  emit (getAppEventName "onUserChanged") (VUser cur) ;;
  gets _user.

(** Lines 112-121. *)
Definition _setUserCredential (userCredential : NativeUserCredential)
  : M UserCredential :=
  user <- new_User (nuc_user userCredential) ;;
  modify (set_authResult true) ;;
  modify (set_user (Some user)) ;;
  cur <- gets _user ;;
  emit (getAppEventName "onUserChanged") (VUser cur) ;;
  ret (mkUserCredential (nuc_additionalUserInfo userCredential) user).

(** Modelled from the spec: the per-request handlers of
    [./phone/PhoneAuthListener] (the Verification Request of section 3 and
    the state machine of section 4.4).  A phase is handed to the
    observers of the handle; a non-terminal phase may occur once, so its
    subscription is dropped; a terminal phase tears down every
    subscription of the request. *)
Definition verification_handler (h : nat) (rk : string) (p : Phase)
           (payload : Value) : M unit :=
  modify (log_phase h p payload) ;;
  if is_terminal p then
    removeListener (phone_event_key rk (phase_name codeSent))
                   (Verification h rk codeSent) ;;
    removeListener (phone_event_key rk (phase_name autoVerifyTimeout))
                   (Verification h rk autoVerifyTimeout) ;;
    removeListener (phone_event_key rk (phase_name autoVerified))
                   (Verification h rk autoVerified) ;;
    removeListener (phone_event_key rk (phase_name error))
                   (Verification h rk error)
  else
    removeListener (phone_event_key rk (phase_name p)) (Verification h rk p).

(** Calling a subscribed function with a payload.  The three constructor
    closures are lines 69-75, 82-85 and 92-98, and a payload outside the
    Flow type of a closure ends in a [TypeError]; an application function
    only leaves a record of the call. *)
Definition invoke (l : Listener) (payload : Value) : M unit :=
  match l with
  | OnNativeAuthState =>
      match payload with
      | VAuthState u =>
          _setUser u ;;
          cur <- gets _user ;;
          emit (getAppEventName "onAuthStateChanged") (VUser cur)
      | _ => throw TypeError
      end
  | OnNativePhoneAuthState =>
      match payload with
      | VPhoneEvent rk ty state =>
          emit (phone_event_key rk ty) (VPhoneState state)
      | _ => throw TypeError
      end
  | OnNativeIdToken =>
      match payload with
      | VAuthState u =>
          _setUser u ;;
          cur <- gets _user ;;
          emit (getAppEventName "onIdTokenChanged") (VUser cur)
      | _ => throw TypeError
      end
  | Verification h rk p => verification_handler h rk p payload
  | Fn id => modify (log_call id payload)
  end.

Fixpoint deliver (ls : list Listener) (payload : Value) : M unit :=
  match ls with
  | [] => ret tt
  | l :: rest => invoke l payload ;; deliver rest payload
  end.

End Handlers.

(** Modelled from the spec: [SharedEventEmitter.emit], synchronous, calling
    the listeners that are subscribed to the topic when the call starts, in
    subscription order.  [fuel] bounds how deep listeners may emit in
    turn. *)
Fixpoint emit (fuel : nat) (topic : string) (payload : Value) {struct fuel}
  : M unit :=
  match fuel with
  | 0 => fun st => (Diverged, st)
  | S f =>
      modify (log_emit topic payload) ;;
      ls <- gets (fun st => SharedEventEmitter.listeners topic (subscriptions st)) ;;
      deliver (emit f) ls payload
  end.

(** Lines 51-103.  [shared] is what the process-wide emitter already holds,
    [lang] the language code read from the native module. *)
Definition constructor (lang : string) (shared : SharedEventEmitter.registry)
  : State :=
  snd ((addListener (getAppEventName "auth_state_changed") OnNativeAuthState ;;
        addListener (getAppEventName "phone_auth_state_changed") OnNativePhoneAuthState ;;
        addListener (getAppEventName "auth_id_token_changed") OnNativeIdToken)
         (mkState None false lang shared 0 [] [] [])).

(** Modelled from the spec: the native notification channel hands an event
    to the emitter under the module's name for it. *)
Definition notify (fuel : nat) (e : NativeEvent) : M unit :=
  emit fuel (getAppEventName (native_name e)) (native_payload e).

(** Lines 131-188. *)
Definition register (topic : string) (listener : nat) : M Unsubscribe :=
  addListener topic (Fn listener) ;;
  flag <- gets _authResult ;;
  (if flag
   then cur <- gets _user ;; modify (log_call listener (VUser cur))
   else ret tt) ;;
  ret (mkUnsubscribe topic (Fn listener)).

Definition onAuthStateChanged (listener : nat) : M Unsubscribe :=
  register (getAppEventName "onAuthStateChanged") listener.

Definition onIdTokenChanged (listener : nat) : M Unsubscribe :=
  register (getAppEventName "onIdTokenChanged") listener.

Definition onUserChanged (listener : nat) : M Unsubscribe :=
  register (getAppEventName "onUserChanged") listener.

(** Lines 194-351: each operation takes the settled promise of the native
    call and runs its [then] continuation. *)
Definition signOut (fuel : nat) (p : Settled unit) : M (Settled unit) :=
  then_ p (fun _ => _setUser (emit fuel) None ;; ret tt).

Definition signInAnonymously (fuel : nat) (p : Settled NativeUser)
  : M (Settled (option User)) :=
  then_ p (fun u => _setUser (emit fuel) (Some u)).

Definition signInAnonymouslyAndRetrieveData (fuel : nat)
           (p : Settled NativeUserCredential) : M (Settled UserCredential) :=
  then_ p (fun c => _setUserCredential (emit fuel) c).

Definition createUserWithEmailAndPassword (fuel : nat) (email password : string)
           (p : Settled NativeUser) : M (Settled (option User)) :=
  then_ p (fun u => _setUser (emit fuel) (Some u)).

Definition createUserAndRetrieveDataWithEmailAndPassword (fuel : nat)
           (email password : string) (p : Settled NativeUserCredential)
  : M (Settled UserCredential) :=
  then_ p (fun c => _setUserCredential (emit fuel) c).

Definition signInWithEmailAndPassword (fuel : nat) (email password : string)
           (p : Settled NativeUser) : M (Settled (option User)) :=
  then_ p (fun u => _setUser (emit fuel) (Some u)).

Definition signInAndRetrieveDataWithEmailAndPassword (fuel : nat)
           (email password : string) (p : Settled NativeUserCredential)
  : M (Settled UserCredential) :=
  then_ p (fun c => _setUserCredential (emit fuel) c).

Definition signInWithCustomToken (fuel : nat) (customToken : string)
           (p : Settled NativeUser) : M (Settled (option User)) :=
  then_ p (fun u => _setUser (emit fuel) (Some u)).

Definition signInAndRetrieveDataWithCustomToken (fuel : nat)
           (customToken : string) (p : Settled NativeUserCredential)
  : M (Settled UserCredential) :=
  then_ p (fun c => _setUserCredential (emit fuel) c).

Definition signInWithCredential (fuel : nat) (providerId token secret : string)
           (p : Settled NativeUser) : M (Settled (option User)) :=
  then_ p (fun u => _setUser (emit fuel) (Some u)).

Definition signInAndRetrieveDataWithCredential (fuel : nat)
           (providerId token secret : string) (p : Settled NativeUserCredential)
  : M (Settled UserCredential) :=
  then_ p (fun c => _setUserCredential (emit fuel) c).

(** Lines 357-361. *)
Definition signInWithPhoneNumber (phoneNumber : string) (p : Settled string)
  : M (Settled ConfirmationResult) :=
  then_ p (fun id => ret (mkConfirmationResult id)).

(** Lines 383-437: the native promise is handed back as it is. *)
Definition sendPasswordResetEmail (email : string) (p : Settled unit)
  : M (Settled unit) := ret p.

Definition confirmPasswordReset (code newPassword : string) (p : Settled unit)
  : M (Settled unit) := ret p.

Definition applyActionCode (code : string) (p : Settled unit)
  : M (Settled unit) := ret p.

Definition checkActionCode (code : string) (p : Settled (list (string * string)))
  : M (Settled (list (string * string))) := ret p.

Definition fetchProvidersForEmail (email : string) (p : Settled (list string))
  : M (Settled (list string)) := ret p.

Definition verifyPasswordResetCode (code : string) (p : Settled string)
  : M (Settled string) := ret p.

(** Lines 444-447. *)
Definition languageCode_set (code : string) : M unit :=
  modify (set_languageCode code).

(** Lines 465-509. *)
Definition unsupported {A : Type} (method : string) : M A :=
  throw (JsError (ERROR_UNSUPPORTED_MODULE_METHOD "auth" method)).

Definition getRedirectResult : M unit := unsupported "getRedirectResult".
Definition setPersistence : M unit := unsupported "setPersistence".
Definition signInWithPopup : M unit := unsupported "signInWithPopup".
Definition signInWithRedirect : M unit := unsupported "signInWithRedirect".
Definition useDeviceLanguage : M unit := unsupported "useDeviceLanguage".

(* ================================================================== *)
(** ** Runs of the module *)
(* ================================================================== *)

(** Everything that can happen to one module instance and its emitter; the
    pass-through operations, which touch neither, are left out. *)
Inductive Action : Type :=
| Notify (e : NativeEvent)
| Emit (topic : string) (payload : Value)
| AddListener (topic : string) (id : nat)
| OnAuthStateChanged (listener : nat)
| OnIdTokenChanged (listener : nat)
| OnUserChanged (listener : nat)
| CallUnsubscribe (topic : string) (listener : nat)
| VerificationStarted (h : nat) (rk : string)
| SignOut (p : Settled unit)
| SignInAnonymously (p : Settled NativeUser)
| SignInAnonymouslyAndRetrieveData (p : Settled NativeUserCredential)
| CreateUserWithEmailAndPassword (email password : string) (p : Settled NativeUser)
| CreateUserAndRetrieveDataWithEmailAndPassword
    (email password : string) (p : Settled NativeUserCredential)
| SignInWithEmailAndPassword (email password : string) (p : Settled NativeUser)
| SignInAndRetrieveDataWithEmailAndPassword
    (email password : string) (p : Settled NativeUserCredential)
| SignInWithCustomToken (customToken : string) (p : Settled NativeUser)
| SignInAndRetrieveDataWithCustomToken
    (customToken : string) (p : Settled NativeUserCredential)
| SignInWithCredential (providerId token secret : string) (p : Settled NativeUser)
| SignInAndRetrieveDataWithCredential
    (providerId token secret : string) (p : Settled NativeUserCredential)
| SetLanguageCode (code : string)
| GetRedirectResult
| SetPersistence
| SignInWithPopup
| SignInWithRedirect
| UseDeviceLanguage.

Definition step (fuel : nat) (a : Action) (st : State) : State :=
  match a with
  | Notify e => run (notify fuel e) st
  | Emit topic payload => run (emit fuel topic payload) st
  | AddListener topic id => run (addListener topic (Fn id)) st
  | OnAuthStateChanged l => run (onAuthStateChanged l) st
  | OnIdTokenChanged l => run (onIdTokenChanged l) st
  | OnUserChanged l => run (onUserChanged l) st
  | CallUnsubscribe topic l => run (unsubscribe (mkUnsubscribe topic (Fn l))) st
  | VerificationStarted h rk => run (verificationStarted h rk) st
  | SignOut p => run (signOut fuel p) st
  | SignInAnonymously p => run (signInAnonymously fuel p) st
  | SignInAnonymouslyAndRetrieveData p =>
      run (signInAnonymouslyAndRetrieveData fuel p) st
  | CreateUserWithEmailAndPassword e w p =>
      run (createUserWithEmailAndPassword fuel e w p) st
  | CreateUserAndRetrieveDataWithEmailAndPassword e w p =>
      run (createUserAndRetrieveDataWithEmailAndPassword fuel e w p) st
  | SignInWithEmailAndPassword e w p =>
      run (signInWithEmailAndPassword fuel e w p) st
  | SignInAndRetrieveDataWithEmailAndPassword e w p =>
      run (signInAndRetrieveDataWithEmailAndPassword fuel e w p) st
  | SignInWithCustomToken t p => run (signInWithCustomToken fuel t p) st
  | SignInAndRetrieveDataWithCustomToken t p =>
      run (signInAndRetrieveDataWithCustomToken fuel t p) st
  | SignInWithCredential a b c p => run (signInWithCredential fuel a b c p) st
  | SignInAndRetrieveDataWithCredential a b c p =>
      run (signInAndRetrieveDataWithCredential fuel a b c p) st
  | SetLanguageCode c => run (languageCode_set c) st
  | GetRedirectResult => run getRedirectResult st
  | SetPersistence => run setPersistence st
  | SignInWithPopup => run signInWithPopup st
  | SignInWithRedirect => run signInWithRedirect st
  | UseDeviceLanguage => run useDeviceLanguage st
  end.

Definition steps (fuel : nat) (l : list Action) (st : State) : State :=
  fold_left (fun s a => step fuel a s) l st.

(** A sequence of native notifications, one after the other. *)
Fixpoint notify_all (fuel : nat) (es : list NativeEvent) : M unit :=
  match es with
  | [] => ret tt
  | e :: rest => notify fuel e ;; notify_all fuel rest
  end.

(* ================================================================== *)
(** ** Well-formed registries *)
(* ================================================================== *)

(** The topic on which a handler of the module may sit.  The constructor
    closures are subscribed by the constructor alone and are reachable by no
    one else; a verification handler sits on the private topic of its key. *)
Definition handler_topic (l : Listener) (t : string) : Prop :=
  match l with
  | OnNativeAuthState => t = getAppEventName "auth_state_changed"
  | OnNativePhoneAuthState => t = getAppEventName "phone_auth_state_changed"
  | OnNativeIdToken => t = getAppEventName "auth_id_token_changed"
  | Verification _ rk p => t = phone_event_key rk (phase_name p)
  | Fn _ => True
  end.

Definition registry_ok (r : SharedEventEmitter.registry) : Prop :=
  Forall (fun e => handler_topic (snd e) (fst e)) r.

Definition installed (r : SharedEventEmitter.registry) : Prop :=
  In (getAppEventName "auth_state_changed", OnNativeAuthState) r /\
  In (getAppEventName "phone_auth_state_changed", OnNativePhoneAuthState) r /\
  In (getAppEventName "auth_id_token_changed", OnNativeIdToken) r.

Definition wf (st : State) : Prop :=
  registry_ok (subscriptions st) /\ installed (subscriptions st).

Definition non_native (t : string) : Prop :=
  t <> getAppEventName "auth_state_changed" /\
  t <> getAppEventName "phone_auth_state_changed" /\
  t <> getAppEventName "auth_id_token_changed".

Definition is_leaf (l : Listener) : bool :=
  match l with
  | Fn _ | Verification _ _ _ => true
  | _ => false
  end.

Definition is_verification (l : Listener) : bool :=
  match l with
  | Verification _ _ _ => true
  | _ => false
  end.

(** What calling an application function or a verification handler does to
    the state; neither emits. *)
Definition leaf_effect (v : Value) (st : State) (l : Listener) : State :=
  match l with
  | Fn id => log_call id v st
  | Verification h rk p =>
      run (verification_handler h rk p v) st
  | _ => st
  end.

(** An [emit] on a topic that carries no constructor closure. *)
Definition leaf_emit (t : string) (v : Value) (st : State) : State :=
  fold_left (leaf_effect v)
            (SharedEventEmitter.listeners t (subscriptions st))
            (log_emit t v st).

(** The assignments of [_setUser] before it emits. *)
Definition adopt (u : option NativeUser) (st : State) : State :=
  match u with
  | Some nu =>
      set_user (Some (mkUser (next_ref st) nu))
               (set_next_ref (S (next_ref st)) (set_authResult true st))
  | None => set_user None (set_authResult true st)
  end.

(** The snapshot is the adapted form of a raw payload. *)
Definition adapts (raw : option NativeUser) (snapshot : option User) : Prop :=
  option_map native snapshot = raw.

Definition auth_payload (e : NativeEvent) : option (option NativeUser) :=
  match e with
  | auth_state_changed u => Some u
  | auth_id_token_changed u => Some u
  | phone_auth_state_changed _ _ _ => None
  end.

(** The application functions among a list of listeners. *)
Fixpoint fn_ids (ls : list Listener) : list nat :=
  match ls with
  | [] => []
  | Fn id :: rest => id :: fn_ids rest
  | _ :: rest => fn_ids rest
  end.

(** The calls of one application function in the call log. *)
Definition calls_of (id : nat) (log : list (nat * Value)) : list Value :=
  map snd (filter (fun c => Nat.eqb (fst c) id) log).

(** The emits on one topic in the emit log. *)
Definition emits_on (t : string) (log : list (string * Value)) : list Value :=
  map snd (filter (fun c => if string_dec (fst c) t then true else false) log).

(** The phases handed to the observers of one verification handle. *)
Definition phases_of (h : nat) (log : list (nat * Phase * Value)) : list Phase :=
  map (fun e => snd (fst e)) (filter (fun e => Nat.eqb (fst (fst e)) h) log).

Definition colon_free (s : string) : Prop :=
  ~ In ":"%char (list_ascii_of_string s).

(** Registries that differ only by verification subscriptions dropped. *)
Definition thinned (r r' : SharedEventEmitter.registry) : Prop :=
  exists keep,
    r' = filter keep r /\
    forall e, is_verification (snd e) = false -> keep e = true.

(** The fields that a leaf delivery cannot touch. *)
Record same_session (st st' : State) : Prop := {
  ss_user : _user st' = _user st;
  ss_authResult : _authResult st' = _authResult st;
  ss_languageCode : _languageCode st' = _languageCode st;
  ss_next_ref : next_ref st' = next_ref st
}.

(** What the closures of lines 69-75 and 92-98 do when every topic they emit
    on is a leaf topic: [_setUser], then the emit on their own public
    topic. *)
Definition bridge (public : string) (u : option NativeUser) (st : State) : State :=
  leaf_emit (getAppEventName public) (VUser (_user (adopt u st)))
    (leaf_emit (getAppEventName "onUserChanged") (VUser (_user (adopt u st)))
       (adopt u st)).

(** What a listener found on the native topic of [e] does with the payload
    of [e], under the same proviso. *)
Definition native_effect (e : NativeEvent) (st : State) (l : Listener) : State :=
  match l, e with
  | Fn id, _ => log_call id (native_payload e) st
  | OnNativeAuthState, auth_state_changed u => bridge "onAuthStateChanged" u st
  | OnNativeAuthState, auth_id_token_changed u => bridge "onAuthStateChanged" u st
  | OnNativeIdToken, auth_state_changed u => bridge "onIdTokenChanged" u st
  | OnNativeIdToken, auth_id_token_changed u => bridge "onIdTokenChanged" u st
  | OnNativePhoneAuthState, phone_auth_state_changed rk ty s =>
      leaf_emit (phone_event_key rk ty) (VPhoneState s) st
  | _, _ => st
  end.

(** The listeners that can sit on the native topic of [e]. *)
Definition compatible (e : NativeEvent) (l : Listener) : bool :=
  match l, e with
  | Fn _, _ => true
  | OnNativeAuthState, auth_state_changed _ => true
  | OnNativeIdToken, auth_id_token_changed _ => true
  | OnNativePhoneAuthState, phone_auth_state_changed _ _ _ => true
  | _, _ => false
  end.

(** The closure that the constructor subscribes for the kind of [e]. *)
Definition closure_of (e : NativeEvent) : Listener :=
  match e with
  | auth_state_changed _ => OnNativeAuthState
  | auth_id_token_changed _ => OnNativeIdToken
  | phone_auth_state_changed _ _ _ => OnNativePhoneAuthState
  end.

(** The raw payload of the most recent auth notification of a sequence. *)
Fixpoint latest (es : list NativeEvent) : option (option NativeUser) :=
  match es with
  | [] => None
  | e :: rest =>
      match latest rest with
      | Some u => Some u
      | None => auth_payload e
      end
  end.

(** A computation keeps the registry well formed and never lowers the
    Authoritative-Result Flag, whatever it returns or throws. *)
Definition preserves {A : Type} (m : M A) : Prop :=
  forall st,
    (wf st -> wf (snd (m st))) /\
    (_authResult st = true -> _authResult (snd (m st)) = true).

(** What a registration does: the listener is subscribed to [topic], is
    called once with the current snapshot exactly when the
    Authoritative-Result Flag is set, and nothing else happens. *)
Definition replays_once (reg : nat -> M Unsubscribe) (topic : string)
           (listener : nat) (st : State) : Prop :=
  exists st',
    reg listener st = (Returned (mkUnsubscribe topic (Fn listener)), st') /\
    invoked st' =
      (invoked st ++
       (if _authResult st then [(listener, VUser (currentUser st))] else []))%list /\
    emitted st' = emitted st /\
    currentUser st' = currentUser st /\
    _authResult st' = _authResult st /\
    subscriptions st' = (subscriptions st ++ [(topic, Fn listener)])%list.

(** *** The life of one verification request *)

(** The listener belongs to verification handle [h]. *)
Definition owned_by (h : nat) (l : Listener) : bool :=
  match l with
  | Verification h' _ _ => Nat.eqb h' h
  | _ => false
  end.

(** The subscriptions that handle [h] holds. *)
Definition hsubs (h : nat) (r : SharedEventEmitter.registry)
  : SharedEventEmitter.registry :=
  filter (fun e => owned_by h (snd e)) r.

(** The subscription of handle [h] for phase [p] of request key [rk]. *)
Definition canon (h : nat) (rk : string) (p : Phase) : string * Listener :=
  (phone_event_key rk (phase_name p), Verification h rk p).

(** Phase [p] may still be delivered after the phases [ps]: no terminal phase
    among them, and not [p] itself. *)
Definition may_follow (ps : list Phase) (p : Phase) : bool :=
  negb (existsb is_terminal ps)
  && negb (existsb (fun q => if Phase_eq_dec q p then true else false) ps).

Inductive lifecycle : list Phase -> Prop :=
| lifecycle_nil : lifecycle []
| lifecycle_snoc (ps : list Phase) (p : Phase) :
    lifecycle ps -> may_follow ps p = true -> lifecycle (ps ++ [p]).

(** What links the subscriptions that handle [h] still holds for request key
    [rk] to the phases its observers have seen. *)
Definition request_inv (h : nat) (rk : string) (st : State) : Prop :=
  NoDup (hsubs h (subscriptions st)) /\
  (forall e, In e (hsubs h (subscriptions st)) ->
             exists p, e = canon h rk p /\
                       may_follow (phases_of h (observed st)) p = true) /\
  lifecycle (phases_of h (observed st)).

(** The actions among which the request of handle [h] lives: everything but
    a second start of the same handle and foreign traffic on the emitter. *)
Definition allowed (h : nat) (a : Action) : bool :=
  match a with
  | Emit _ _ => false
  | VerificationStarted h' _ => negb (Nat.eqb h' h)
  | _ => true
  end.

(** The actions that deliver or produce no notification: registrations,
    removals, a verification start, the language code, the unsupported
    operations, and provider operations whose native call is rejected. *)
Definition quiet (a : Action) : bool :=
  match a with
  | Notify _ | Emit _ _ => false
  | SignOut (Resolved _)
  | SignInAnonymously (Resolved _)
  | SignInAnonymouslyAndRetrieveData (Resolved _)
  | CreateUserWithEmailAndPassword _ _ (Resolved _)
  | CreateUserAndRetrieveDataWithEmailAndPassword _ _ (Resolved _)
  | SignInWithEmailAndPassword _ _ (Resolved _)
  | SignInAndRetrieveDataWithEmailAndPassword _ _ (Resolved _)
  | SignInWithCustomToken _ (Resolved _)
  | SignInAndRetrieveDataWithCustomToken _ (Resolved _)
  | SignInWithCredential _ _ _ (Resolved _)
  | SignInAndRetrieveDataWithCredential _ _ _ (Resolved _) => false
  | _ => true
  end.

(** *** Further observations on the module *)

(** Lines 457-459: the getter of [languageCode]. *)
Definition languageCode_get : M string := gets _languageCode.

(** The public topic on which the closure for an auth notification emits
    after [onUserChanged]. *)
Definition public_of (e : NativeEvent) : string :=
  match e with
  | auth_state_changed _ => "onAuthStateChanged"
  | auth_id_token_changed _ => "onIdTokenChanged"
  | phone_auth_state_changed _ _ _ => "phone_auth_state_changed"
  end.


(** A registration undone by the unsubscribe function it returned. *)
Definition undone (reg : nat -> M Unsubscribe) (listener : nat) (st : State)
  : Prop :=
  exists u st1,
    reg listener st = (Returned u, st1) /\
    subscriptions (run (unsubscribe u) st1) = subscriptions st /\
    (_authResult st = false -> run (unsubscribe u) st1 = st).

(** The provider operations that change the session, with a resolved
    promise. *)
Definition resolved_op (a : Action) : bool :=
  match a with
  | SignOut (Resolved _)
  | SignInAnonymously (Resolved _)
  | SignInAnonymouslyAndRetrieveData (Resolved _)
  | CreateUserWithEmailAndPassword _ _ (Resolved _)
  | CreateUserAndRetrieveDataWithEmailAndPassword _ _ (Resolved _)
  | SignInWithEmailAndPassword _ _ (Resolved _)
  | SignInAndRetrieveDataWithEmailAndPassword _ _ (Resolved _)
  | SignInWithCustomToken _ (Resolved _)
  | SignInAndRetrieveDataWithCustomToken _ (Resolved _)
  | SignInWithCredential _ _ _ (Resolved _)
  | SignInAndRetrieveDataWithCredential _ _ _ (Resolved _) => true
  | _ => false
  end.

Definition sets_language (a : Action) : bool :=
  match a with
  | SetLanguageCode _ => true
  | _ => false
  end.

Definition is_emit (a : Action) : bool :=
  match a with
  | Emit _ _ => true
  | _ => false
  end.

(** A computation leaves the language code alone. *)
Definition keeps_language {A : Type} (m : M A) : Prop :=
  forall st, _languageCode (snd (m st)) = _languageCode st.

(** Every [User] object in use was allocated before the next one will be. *)
Definition fresh (st : State) : Prop :=
  forall u, _user st = Some u -> ref u < next_ref st.

(** No change of the snapshot goes unannounced: once an authoritative result
    has arrived, the last emit on [onUserChanged] carried the current
    snapshot; before, there is no user. *)
Definition announced (st : State) : Prop :=
  if _authResult st
  then exists before,
         emits_on (getAppEventName "onUserChanged") (emitted st) =
         (before ++ [VUser (_user st)])%list
  else _user st = None.


(* ================================================================== *)
(** ** Strings *)
(* ================================================================== *)

Lemma append_cancel_l (a b c : string) : (a ++ b = a ++ c)%string -> b = c.
Proof.
  induction a as [|x a IH]; simpl; intros H; [exact H|].
  injection H as H. auto.
Qed.

Lemma list_ascii_of_string_app (a b : string) :
  list_ascii_of_string (a ++ b) =
  (list_ascii_of_string a ++ list_ascii_of_string b)%list.
Proof.
  induction a as [|x a IH]; simpl; [reflexivity|]. now rewrite IH.
Qed.

Lemma list_ascii_of_string_inj (a b : string) :
  list_ascii_of_string a = list_ascii_of_string b -> a = b.
Proof.
  intros H.
  rewrite <- (string_of_list_ascii_of_string a).
  rewrite <- (string_of_list_ascii_of_string b).
  now rewrite H.
Qed.

Lemma split_at_last (c : ascii) (l1 l2 t1 t2 : list ascii) :
  (l1 ++ c :: t1 = l2 ++ c :: t2)%list ->
  ~ In c t1 -> ~ In c t2 -> l1 = l2 /\ t1 = t2.
Proof.
  revert l2. induction l1 as [|x l1 IH]; intros [|y l2] H N1 N2; simpl in H.
  - injection H as H. auto.
  - injection H as Hc Ht. exfalso. apply N1. rewrite Ht.
    apply in_or_app. right. now left.
  - injection H as Hc Ht. exfalso. apply N2. rewrite <- Ht.
    apply in_or_app. right. now left.
  - injection H as Hx Ht. destruct (IH l2 Ht N1 N2) as [E1 E2].
    subst. auto.
Qed.

Lemma phone_event_key_prefix (rk ty : string) :
  prefix "phone:auth:" (phone_event_key rk ty) = true.
Proof.
  unfold phone_event_key. simpl.
  now destruct (rk ++ String ":" ty)%string.
Qed.

Lemma phone_event_key_type_inj (rk ty ty' : string) :
  phone_event_key rk ty = phone_event_key rk ty' -> ty = ty'.
Proof.
  unfold phone_event_key. intros H.
  apply append_cancel_l in H. apply append_cancel_l in H.
  now apply append_cancel_l in H.
Qed.

Lemma phone_event_key_inj (r1 r2 t1 t2 : string) :
  colon_free t1 -> colon_free t2 ->
  phone_event_key r1 t1 = phone_event_key r2 t2 -> r1 = r2 /\ t1 = t2.
Proof.
  unfold phone_event_key, colon_free. intros N1 N2 H.
  apply append_cancel_l in H.
  apply (f_equal list_ascii_of_string) in H.
  rewrite !list_ascii_of_string_app in H. simpl in H.
  destruct (split_at_last _ _ _ _ _ H N1 N2) as [E1 E2].
  split; now apply list_ascii_of_string_inj.
Qed.

Lemma phase_name_inj (p q : Phase) : phase_name p = phase_name q -> p = q.
Proof. destruct p, q; simpl; intros H; try reflexivity; discriminate H. Qed.

Lemma phase_name_colon_free (p : Phase) : colon_free (phase_name p).
Proof.
  unfold colon_free. destruct p; simpl; intros H;
    repeat (destruct H as [H|H]; [discriminate H|]); exact H.
Qed.

(* ================================================================== *)
(** ** The emitter on leaf topics *)
(* ================================================================== *)

Ltac munfold :=
  unfold bind, ret, modify, gets, throw, addListener, removeListener, run.

Lemma listeners_In (t : string) (l : Listener) (r : SharedEventEmitter.registry) :
  In l (SharedEventEmitter.listeners t r) <-> In (t, l) r.
Proof.
  unfold SharedEventEmitter.listeners. rewrite in_map_iff. split.
  - intros [[t' l'] [E H]]. simpl in E. subst l'.
    apply filter_In in H. destruct H as [H D]. simpl in D.
    destruct (string_dec t' t); [now subst|discriminate].
  - intros H. exists (t, l). split; [reflexivity|].
    apply filter_In. split; [exact H|]. simpl.
    destruct (string_dec t t); [reflexivity|contradiction].
Qed.

Lemma registry_ok_listeners (t : string) (l : Listener) r :
  registry_ok r -> In l (SharedEventEmitter.listeners t r) -> handler_topic l t.
Proof.
  unfold registry_ok. rewrite Forall_forall, listeners_In.
  intros H Hin. exact (H _ Hin).
Qed.

Lemma verification_handler_returns (h : nat) (rk : string) (p : Phase)
      (v : Value) (st : State) :
  verification_handler h rk p v st =
  (Returned tt, run (verification_handler h rk p v) st).
Proof. destruct p; reflexivity. Qed.

Lemma deliver_leaf (E : string -> Value -> M unit) (ls : list Listener)
      (v : Value) (st : State) :
  Forall (fun l => is_leaf l = true) ls ->
  deliver E ls v st = (Returned tt, fold_left (leaf_effect v) ls st).
Proof.
  revert st. induction ls as [|l ls IH]; intros st H; [reflexivity|].
  inversion H as [|? ? Hl Hls]; subst. simpl deliver. unfold bind.
  destruct l; simpl in Hl; try discriminate Hl; simpl invoke.
  - rewrite verification_handler_returns. now apply IH.
  - unfold modify. now apply IH.
Qed.

Lemma emit_leaf_gen (f : nat) (t : string) (v : Value) (st : State) :
  Forall (fun l => is_leaf l = true)
         (SharedEventEmitter.listeners t (subscriptions st)) ->
  emit (S f) t v st = (Returned tt, leaf_emit t v st).
Proof.
  intros H. simpl emit. munfold. simpl subscriptions.
  now apply deliver_leaf.
Qed.

(** *** Frame of a leaf delivery *)

Lemma thinned_refl (r : SharedEventEmitter.registry) : thinned r r.
Proof.
  exists (fun _ => true). split; [|reflexivity].
  induction r as [|e r IH]; simpl; [reflexivity|]. now rewrite <- IH.
Qed.

Lemma filter_filter (A : Type) (f g : A -> bool) (l : list A) :
  filter g (filter f l) = filter (fun x => f x && g x) l.
Proof.
  induction l as [|x l IH]; simpl; [reflexivity|].
  destruct (f x); simpl; [destruct (g x)|]; now rewrite IH.
Qed.

Lemma thinned_trans (r1 r2 r3 : SharedEventEmitter.registry) :
  thinned r1 r2 -> thinned r2 r3 -> thinned r1 r3.
Proof.
  intros [k1 [E1 H1]] [k2 [E2 H2]]. subst.
  exists (fun e => k1 e && k2 e). split; [apply filter_filter|].
  intros e He. now rewrite H1, H2.
Qed.

Lemma thinned_remove (t : string) (h : nat) (rk : string) (p : Phase)
      (r : SharedEventEmitter.registry) :
  thinned r (SharedEventEmitter.removeListener t (Verification h rk p) r).
Proof.
  exists (fun e => negb (SharedEventEmitter.same t (Verification h rk p) e)).
  split; [reflexivity|]. intros [t' l] He. simpl in He.
  unfold SharedEventEmitter.same. simpl.
  destruct (Listener_eq_dec l (Verification h rk p)) as [E|N].
  - subst l. discriminate He.
  - now rewrite andb_false_r.
Qed.

Lemma thinned_In (r r' : SharedEventEmitter.registry) (e : string * Listener) :
  thinned r r' -> is_verification (snd e) = false -> (In e r' <-> In e r).
Proof.
  intros [k [E H]] He. subst r'. rewrite filter_In. split.
  - now intros [Hin _].
  - intros Hin. split; [exact Hin|now apply H].
Qed.

Lemma thinned_incl (r r' : SharedEventEmitter.registry) (e : string * Listener) :
  thinned r r' -> In e r' -> In e r.
Proof. intros [k [E H]] Hin. subst r'. now apply filter_In in Hin. Qed.

Lemma thinned_registry_ok (r r' : SharedEventEmitter.registry) :
  thinned r r' -> registry_ok r -> registry_ok r'.
Proof.
  unfold registry_ok. rewrite !Forall_forall. intros T H e Hin.
  apply H. eapply thinned_incl; eauto.
Qed.

Lemma thinned_installed (r r' : SharedEventEmitter.registry) :
  thinned r r' -> installed r -> installed r'.
Proof.
  intros T [H1 [H2 H3]]. repeat split;
    (apply (thinned_In _ T); [reflexivity|assumption]).
Qed.

Lemma thinned_fn_listeners (r r' : SharedEventEmitter.registry) (t : string) :
  thinned r r' ->
  fn_ids (SharedEventEmitter.listeners t r') =
  fn_ids (SharedEventEmitter.listeners t r).
Proof.
  intros [k [E H]]. subst r'. unfold SharedEventEmitter.listeners.
  induction r as [|[t' l] r IH]; simpl; [reflexivity|].
  destruct (k (t', l)) eqn:K; simpl.
  - destruct (string_dec t' t); simpl; [|exact IH].
    destruct l; simpl; try exact IH. now rewrite IH.
  - destruct (string_dec t' t); simpl; [|exact IH].
    destruct l; simpl; try exact IH.
    rewrite H in K; [discriminate K|reflexivity].
Qed.

Lemma same_session_refl (st : State) : same_session st st.
Proof. now constructor. Qed.

Lemma same_session_trans (a b c : State) :
  same_session a b -> same_session b c -> same_session a c.
Proof.
  intros [A1 A2 A3 A4] [B1 B2 B3 B4]. constructor; congruence.
Qed.

Lemma leaf_effect_frame (v : Value) (st : State) (l : Listener) :
  same_session st (leaf_effect v st l) /\
  emitted (leaf_effect v st l) = emitted st /\
  invoked (leaf_effect v st l) =
    (invoked st ++ map (fun id => (id, v)) (fn_ids [l]))%list /\
  thinned (subscriptions st) (subscriptions (leaf_effect v st l)).
Proof.
  destruct l; simpl;
    try (repeat split; try (now rewrite app_nil_r); apply thinned_refl).
  - destruct p; (repeat split; [now rewrite app_nil_r|]); munfold; simpl;
      repeat (eapply thinned_trans; [|apply thinned_remove]);
      apply thinned_refl.
Qed.

Lemma leaf_fold_frame (v : Value) (ls : list Listener) (st : State) :
  same_session st (fold_left (leaf_effect v) ls st) /\
  emitted (fold_left (leaf_effect v) ls st) = emitted st /\
  invoked (fold_left (leaf_effect v) ls st) =
    (invoked st ++ map (fun id => (id, v)) (fn_ids ls))%list /\
  thinned (subscriptions st) (subscriptions (fold_left (leaf_effect v) ls st)).
Proof.
  revert st. induction ls as [|l ls IH]; intros st; simpl fold_left.
  - repeat split; [now rewrite app_nil_r|apply thinned_refl].
  - destruct (leaf_effect_frame v st l) as [S1 [E1 [I1 T1]]].
    destruct (IH (leaf_effect v st l)) as [S2 [E2 [I2 T2]]].
    split; [eapply same_session_trans; eauto|].
    split; [congruence|].
    split; [|eapply thinned_trans; eauto].
    rewrite I2, I1, <- app_assoc, <- map_app. f_equal. f_equal.
    destruct l; reflexivity.
Qed.

Lemma leaf_emit_frame (t : string) (v : Value) (st : State) :
  same_session st (leaf_emit t v st) /\
  emitted (leaf_emit t v st) = (emitted st ++ [(t, v)])%list /\
  invoked (leaf_emit t v st) =
    (invoked st ++ map (fun id => (id, v))
       (fn_ids (SharedEventEmitter.listeners t (subscriptions st))))%list /\
  thinned (subscriptions st) (subscriptions (leaf_emit t v st)).
Proof.
  unfold leaf_emit.
  destruct (leaf_fold_frame v
              (SharedEventEmitter.listeners t (subscriptions st))
              (log_emit t v st)) as [[S1 S2 S3 S4] [E [I T]]].
  repeat split; assumption.
Qed.

Lemma leaf_emit_wf (t : string) (v : Value) (st : State) :
  wf st -> wf (leaf_emit t v st).
Proof.
  intros [H1 H2]. destruct (leaf_emit_frame t v st) as [_ [_ [_ T]]].
  split; [eapply thinned_registry_ok|eapply thinned_installed]; eauto.
Qed.

(* ================================================================== *)
(** ** Naming assumptions *)
(* ================================================================== *)

(** What is assumed of the absent [getAppEventName]: different event names
    give different topics, and no topic of the module looks like a private
    phone topic. *)
Hypothesis getAppEventName_inj :
  forall a b, getAppEventName a = getAppEventName b -> a = b.
Hypothesis getAppEventName_not_phone :
  forall a, prefix "phone:auth:" (getAppEventName a) = false.

Lemma phone_event_key_not_app (rk ty name : string) :
  phone_event_key rk ty <> getAppEventName name.
Proof.
  intros E. pose proof (phone_event_key_prefix rk ty) as P.
  rewrite E, getAppEventName_not_phone in P. discriminate P.
Qed.

Lemma non_native_phone (rk ty : string) : non_native (phone_event_key rk ty).
Proof. repeat split; apply phone_event_key_not_app. Qed.

Lemma non_native_public (name : string) :
  name = "onAuthStateChanged" \/ name = "onIdTokenChanged" \/
  name = "onUserChanged" ->
  non_native (getAppEventName name).
Proof.
  intros [E|[E|E]]; subst name; repeat split; intros H;
    apply getAppEventName_inj in H; discriminate H.
Qed.

Lemma listeners_leaf (t : string) (r : SharedEventEmitter.registry) :
  registry_ok r -> non_native t ->
  Forall (fun l => is_leaf l = true) (SharedEventEmitter.listeners t r).
Proof.
  intros Hr [N1 [N2 N3]]. apply Forall_forall. intros l Hl.
  pose proof (registry_ok_listeners _ _ Hr Hl) as Ht.
  destruct l; simpl in *; congruence.
Qed.

Lemma emit_leaf (f : nat) (t : string) (v : Value) (st : State) :
  registry_ok (subscriptions st) -> non_native t ->
  emit (S f) t v st = (Returned tt, leaf_emit t v st).
Proof. intros Hr Hn. apply emit_leaf_gen. now apply listeners_leaf. Qed.

(** On a public topic only application functions listen. *)
Lemma listeners_public (name : string) (r : SharedEventEmitter.registry) :
  registry_ok r ->
  name = "onAuthStateChanged" \/ name = "onIdTokenChanged" \/
  name = "onUserChanged" ->
  SharedEventEmitter.listeners (getAppEventName name) r =
  map Fn (fn_ids (SharedEventEmitter.listeners (getAppEventName name) r)).
Proof.
  intros Hr Hn.
  assert (H : Forall (fun l => exists id, l = Fn id)
                     (SharedEventEmitter.listeners (getAppEventName name) r)).
  { apply Forall_forall. intros l Hl.
    pose proof (registry_ok_listeners _ _ Hr Hl) as Ht.
    destruct (non_native_public Hn) as [N1 [N2 N3]].
    destruct l; simpl in Ht; try congruence.
    - symmetry in Ht. now apply phone_event_key_not_app in Ht.
    - now exists id. }
  induction H as [|l ls [id E] _ IH]; simpl; [reflexivity|].
  subst l. simpl. now rewrite <- IH.
Qed.

(* ================================================================== *)
(** ** The constructor closures *)
(* ================================================================== *)

Lemma adopt_subscriptions (u : option NativeUser) (st : State) :
  subscriptions (adopt u st) = subscriptions st.
Proof. now destruct u. Qed.

Lemma adopt_adapts (u : option NativeUser) (st : State) :
  adapts u (_user (adopt u st)).
Proof. now destruct u. Qed.

Lemma adopt_authResult (u : option NativeUser) (st : State) :
  _authResult (adopt u st) = true.
Proof. now destruct u. Qed.

Lemma _setUser_leaf (f : nat) (u : option NativeUser) (st : State) :
  registry_ok (subscriptions st) ->
  _setUser (emit (S f)) u st =
  (Returned (_user (adopt u st)),
   leaf_emit (getAppEventName "onUserChanged") (VUser (_user (adopt u st)))
             (adopt u st)).
Proof.
  intros Hr. unfold _setUser, new_User. munfold.
  assert (Hn : non_native (getAppEventName "onUserChanged"))
    by (apply non_native_public; auto).
  destruct u as [nu|]; cbn -[emit leaf_emit].
  - rewrite emit_leaf; [|exact Hr|exact Hn].
    f_equal. f_equal.
    now rewrite (ss_user (proj1 (leaf_emit_frame _ _ _))).
  - rewrite emit_leaf; [|exact Hr|exact Hn].
    f_equal. f_equal.
    now rewrite (ss_user (proj1 (leaf_emit_frame _ _ _))).
Qed.

Lemma _setUserCredential_leaf (f : nat) (c : NativeUserCredential) (st : State) :
  registry_ok (subscriptions st) ->
  _setUserCredential (emit (S f)) c st =
  (Returned (mkUserCredential (nuc_additionalUserInfo c)
                              (mkUser (next_ref st) (nuc_user c))),
   leaf_emit (getAppEventName "onUserChanged")
             (VUser (Some (mkUser (next_ref st) (nuc_user c))))
             (set_user (Some (mkUser (next_ref st) (nuc_user c)))
                (set_authResult true (set_next_ref (S (next_ref st)) st)))).
Proof.
  intros Hr. unfold _setUserCredential, new_User. munfold.
  cbn -[emit leaf_emit].
  rewrite emit_leaf; [reflexivity|exact Hr|].
  apply non_native_public; auto.
Qed.

Lemma bridge_frame (public : string) (u : option NativeUser) (st : State) :
  _user (bridge public u st) = _user (adopt u st) /\
  _authResult (bridge public u st) = true /\
  thinned (subscriptions st) (subscriptions (bridge public u st)).
Proof.
  unfold bridge.
  destruct (leaf_emit_frame (getAppEventName "onUserChanged")
              (VUser (_user (adopt u st))) (adopt u st)) as [[A1 A2 _ _] [_ [_ T1]]].
  destruct (leaf_emit_frame (getAppEventName public)
              (VUser (_user (adopt u st)))
              (leaf_emit (getAppEventName "onUserChanged")
                 (VUser (_user (adopt u st))) (adopt u st)))
    as [[B1 B2 _ _] [_ [_ T2]]].
  rewrite adopt_subscriptions in T1.
  split; [congruence|]. split.
  - rewrite B2, A2. apply adopt_authResult.
  - eapply thinned_trans; eauto.
Qed.

Lemma invoke_bridge (f : nat) (l : Listener) (public : string)
      (u : option NativeUser) (st : State) :
  registry_ok (subscriptions st) ->
  (l = OnNativeAuthState /\ public = "onAuthStateChanged") \/
  (l = OnNativeIdToken /\ public = "onIdTokenChanged") ->
  invoke (emit (S f)) l (VAuthState u) st = (Returned tt, bridge public u st).
Proof.
  intros Hr Hl.
  assert (Hn : non_native (getAppEventName public))
    by (apply non_native_public; destruct Hl as [[_ E]|[_ E]]; auto).
  assert (Hs : invoke (emit (S f)) l (VAuthState u) =
               (_setUser (emit (S f)) u ;;
                cur <- gets _user ;;
                emit (S f) (getAppEventName public) (VUser cur)))
    by (destruct Hl as [[E1 E2]|[E1 E2]]; subst; reflexivity).
  rewrite Hs. unfold bind at 1. rewrite _setUser_leaf by exact Hr.
  unfold bind, gets.
  pose proof (leaf_emit_frame (getAppEventName "onUserChanged")
                (VUser (_user (adopt u st))) (adopt u st)) as [[A1 _ _ _] [_ [_ T]]].
  rewrite emit_leaf; [|
    eapply thinned_registry_ok; [exact T|now rewrite adopt_subscriptions] |
    exact Hn].
  unfold bridge. now rewrite A1.
Qed.

Lemma invoke_phone (f : nat) (rk ty : string) (s : PhoneState) (st : State) :
  registry_ok (subscriptions st) ->
  invoke (emit (S f)) OnNativePhoneAuthState (VPhoneEvent rk ty s) st =
  (Returned tt, leaf_emit (phone_event_key rk ty) (VPhoneState s) st).
Proof.
  intros Hr. cbn -[emit leaf_emit].
  apply emit_leaf; [exact Hr|apply non_native_phone].
Qed.

(* ================================================================== *)
(** ** Delivery of a native notification *)
(* ================================================================== *)

Lemma listeners_compatible (e : NativeEvent) (r : SharedEventEmitter.registry) :
  registry_ok r ->
  Forall (fun l => compatible e l = true)
         (SharedEventEmitter.listeners (getAppEventName (native_name e)) r).
Proof.
  intros Hr. apply Forall_forall. intros l Hl.
  pose proof (registry_ok_listeners _ _ Hr Hl) as Ht.
  destruct l; simpl in Ht.
  - apply getAppEventName_inj in Ht. destruct e; simpl in *; congruence.
  - apply getAppEventName_inj in Ht. destruct e; simpl in *; congruence.
  - apply getAppEventName_inj in Ht. destruct e; simpl in *; congruence.
  - symmetry in Ht. now apply phone_event_key_not_app in Ht.
  - now destruct e.
Qed.

Lemma native_effect_thinned (e : NativeEvent) (st : State) (l : Listener) :
  thinned (subscriptions st) (subscriptions (native_effect e st l)).
Proof.
  destruct l, e; simpl; try apply thinned_refl;
    try apply bridge_frame.
  apply leaf_emit_frame.
Qed.

Lemma invoke_native (f : nat) (e : NativeEvent) (l : Listener) (st : State) :
  registry_ok (subscriptions st) -> compatible e l = true ->
  invoke (emit (S f)) l (native_payload e) st =
  (Returned tt, native_effect e st l).
Proof.
  intros Hr Hc. destruct l, e; simpl in Hc; try discriminate Hc;
    try reflexivity.
  - apply invoke_bridge; auto.
  - now apply invoke_phone.
  - apply invoke_bridge; auto.
Qed.

Lemma deliver_native (f : nat) (e : NativeEvent) (ls : list Listener)
      (st : State) :
  registry_ok (subscriptions st) ->
  Forall (fun l => compatible e l = true) ls ->
  deliver (emit (S f)) ls (native_payload e) st =
  (Returned tt, fold_left (native_effect e) ls st).
Proof.
  revert st. induction ls as [|l ls IH]; intros st Hr Hc; [reflexivity|].
  inversion Hc as [|? ? Hl Hls]; subst.
  cbn -[emit invoke]. unfold bind. rewrite invoke_native by assumption.
  apply IH; [|exact Hls].
  eapply thinned_registry_ok; [apply native_effect_thinned|exact Hr].
Qed.

Lemma notify_eq (f : nat) (e : NativeEvent) (st : State) :
  registry_ok (subscriptions st) ->
  notify (S (S f)) e st =
  (Returned tt,
   fold_left (native_effect e)
     (SharedEventEmitter.listeners (getAppEventName (native_name e))
                                   (subscriptions st))
     (log_emit (getAppEventName (native_name e)) (native_payload e) st)).
Proof.
  intros Hr. unfold notify.
  change (emit (S (S f)) ?t ?v) with
    (modify (log_emit t v) ;;
     ls <- gets (fun st => SharedEventEmitter.listeners t (subscriptions st)) ;;
     deliver (emit (S f)) ls v).
  munfold. apply deliver_native; [exact Hr|].
  now apply listeners_compatible.
Qed.

Lemma native_fold_thinned (e : NativeEvent) (ls : list Listener) (st : State) :
  thinned (subscriptions st) (subscriptions (fold_left (native_effect e) ls st)).
Proof.
  revert st. induction ls as [|l ls IH]; intros st; simpl.
  - apply thinned_refl.
  - eapply thinned_trans; [apply native_effect_thinned|apply IH].
Qed.

Lemma notify_wf (f : nat) (e : NativeEvent) (st : State) :
  wf st -> wf (run (notify (S (S f)) e) st).
Proof.
  intros [Hr Hi]. unfold run. rewrite notify_eq by exact Hr. simpl snd.
  pose proof (native_fold_thinned e
    (SharedEventEmitter.listeners (getAppEventName (native_name e))
                                  (subscriptions st))
    (log_emit (getAppEventName (native_name e)) (native_payload e) st)) as T.
  simpl subscriptions in T at 1.
  split; [eapply thinned_registry_ok|eapply thinned_installed]; eauto.
Qed.

(** *** The snapshot after one notification *)

Lemma native_fold_user_auth (e : NativeEvent) (u : option NativeUser)
      (ls : list Listener) (st : State) :
  auth_payload e = Some u ->
  Forall (fun l => compatible e l = true) ls ->
  adapts u (_user st) \/ In (closure_of e) ls ->
  adapts u (_user (fold_left (native_effect e) ls st)).
Proof.
  intros He. revert st. induction ls as [|l ls IH]; intros st Hc Hd.
  - simpl. destruct Hd as [H|[]]. exact H.
  - inversion Hc as [|? ? Hl Hls]; subst. simpl fold_left.
    apply IH; [exact Hls|].
    destruct l, e; simpl in Hl, He; try discriminate.
    + left. injection He as <-. simpl.
      rewrite (proj1 (bridge_frame _ _ _)). apply adopt_adapts.
    + left. injection He as <-. simpl.
      rewrite (proj1 (bridge_frame _ _ _)). apply adopt_adapts.
    + destruct Hd as [H|[H|H]]; [left; exact H|discriminate H|right; exact H].
    + destruct Hd as [H|[H|H]]; [left; exact H|discriminate H|right; exact H].
Qed.

Lemma native_fold_session_phone (rk ty : string) (s : PhoneState)
      (ls : list Listener) (st : State) :
  same_session st
    (fold_left (native_effect (phone_auth_state_changed rk ty s)) ls st).
Proof.
  revert st. induction ls as [|l ls IH]; intros st; simpl fold_left.
  - apply same_session_refl.
  - eapply same_session_trans; [|apply IH].
    destruct l; simpl; try (constructor; reflexivity).
    exact (proj1 (leaf_emit_frame _ _ _)).
Qed.

Lemma notify_user (f : nat) (e : NativeEvent) (st : State) :
  wf st ->
  match auth_payload e with
  | Some u => adapts u (_user (run (notify (S (S f)) e) st))
  | None => _user (run (notify (S (S f)) e) st) = _user st
  end.
Proof.
  intros [Hr [I1 [I2 I3]]]. unfold run. rewrite notify_eq by exact Hr.
  simpl snd. destruct (auth_payload e) as [u|] eqn:He.
  - apply native_fold_user_auth; [exact He|now apply listeners_compatible|].
    right. apply listeners_In. destruct e; simpl in *; try discriminate;
      assumption.
  - destruct e; simpl in He; try discriminate He.
    now rewrite (ss_user (native_fold_session_phone _ _ _ _ _)).
Qed.

Lemma notify_returns (f : nat) (e : NativeEvent) (st : State) :
  registry_ok (subscriptions st) ->
  notify (S (S f)) e st = (Returned tt, run (notify (S (S f)) e) st).
Proof. intros Hr. unfold run. now rewrite notify_eq. Qed.

Lemma notify_all_cons (f : nat) (e : NativeEvent) (es : list NativeEvent)
      (st : State) :
  registry_ok (subscriptions st) ->
  notify_all (S (S f)) (e :: es) st =
  notify_all (S (S f)) es (run (notify (S (S f)) e) st).
Proof.
  intros Hr. cbn -[notify]. unfold bind. now rewrite notify_returns.
Qed.

Lemma notify_all_run (f : nat) (es : list NativeEvent) (st : State) :
  wf st ->
  notify_all (S (S f)) es st =
    (Returned tt, run (notify_all (S (S f)) es) st) /\
  wf (run (notify_all (S (S f)) es) st) /\
  match latest es with
  | Some u => adapts u (_user (run (notify_all (S (S f)) es) st))
  | None => _user (run (notify_all (S (S f)) es) st) = _user st
  end.
Proof.
  revert st. induction es as [|e es IH]; intros st Hw.
  - split; [reflexivity|]. split; [exact Hw|reflexivity].
  - pose proof (notify_wf f e Hw) as Hw1.
    pose proof (notify_user f e Hw) as Hu1.
    destruct (IH _ Hw1) as [E [Hw2 Hu2]].
    assert (R : run (notify_all (S (S f)) (e :: es)) st =
                run (notify_all (S (S f)) es) (run (notify (S (S f)) e) st)).
    { unfold run at 1 2. now rewrite notify_all_cons by apply Hw. }
    rewrite R, notify_all_cons by apply Hw.
    split; [exact E|]. split; [exact Hw2|].
    simpl latest. destruct (latest es) as [u|]; [exact Hu2|].
    destruct (auth_payload e) as [u|]; congruence.
Qed.

(* ================================================================== *)
(** ** What every computation of the module preserves *)
(* ================================================================== *)

Lemma preserves_ret (A : Type) (a : A) : preserves (ret a).
Proof. intros st. now split. Qed.

Lemma preserves_throw (A : Type) (e : Error) : preserves (@throw A e).
Proof. intros st. now split. Qed.

Lemma preserves_gets (A : Type) (f : State -> A) : preserves (gets f).
Proof. intros st. now split. Qed.

Lemma preserves_bind (A B : Type) (m : M A) (k : A -> M B) :
  preserves m -> (forall a, preserves (k a)) -> preserves (bind m k).
Proof.
  intros Hm Hk st. unfold bind. destruct (Hm st) as [W F].
  destruct (m st) as [[a| |] st1]; simpl in *; [|now split|now split].
  destruct (Hk a st1) as [W1 F1]. split; auto.
Qed.

Lemma preserves_then (A B : Type) (p : Settled A) (k : A -> M B) :
  (forall a, preserves (k a)) -> preserves (then_ p k).
Proof.
  intros Hk st. destruct p as [a|e]; simpl; [|now split].
  destruct (Hk a st) as [W F].
  destruct (k a st) as [[b| |] st1]; simpl in *; now split.
Qed.

Lemma preserves_modify (f : State -> State) :
  (forall st, subscriptions (f st) = subscriptions st) ->
  (forall st, _authResult st = true -> _authResult (f st) = true) ->
  preserves (modify f).
Proof.
  intros Hs Hf st. unfold modify, wf. simpl. rewrite Hs. split; auto.
Qed.

Lemma preserves_addListener (t : string) (l : Listener) :
  handler_topic l t -> preserves (addListener t l).
Proof.
  intros Ht st. unfold addListener, modify, wf, SharedEventEmitter.addListener.
  simpl. split; [|auto]. intros [Hr [I1 [I2 I3]]]. split.
  - unfold registry_ok in *. apply Forall_app. split; [exact Hr|].
    constructor; [exact Ht|constructor].
  - repeat split; apply in_or_app; now left.
Qed.

Lemma preserves_removeListener (t : string) (l : Listener) :
  is_leaf l = true -> preserves (removeListener t l).
Proof.
  intros Hl st. unfold removeListener, modify, wf.
  unfold SharedEventEmitter.removeListener. simpl. split; [|auto].
  intros [Hr [I1 [I2 I3]]]. split.
  - unfold registry_ok in *. rewrite Forall_forall in *. intros e He.
    apply filter_In in He. now apply Hr.
  - repeat split; apply filter_In; (split; [assumption|]);
      unfold SharedEventEmitter.same; simpl;
      destruct l; simpl in Hl; try discriminate Hl;
      now rewrite andb_false_r.
Qed.

Lemma preserves_verification_handler (h : nat) (rk : string) (p : Phase)
      (v : Value) :
  preserves (verification_handler h rk p v).
Proof.
  unfold verification_handler. apply preserves_bind.
  - now apply preserves_modify.
  - intros _. destruct (is_terminal p);
      repeat (apply preserves_bind; [|intros _]);
      now apply preserves_removeListener.
Qed.

Section EmitPreserves.

Variable E : string -> Value -> M unit.
Hypothesis E_preserves : forall t v, preserves (E t v).

Lemma preserves_new_User (nu : NativeUser) : preserves (new_User nu).
Proof. intros st. now split. Qed.

Lemma preserves_setUser (u : option NativeUser) : preserves (_setUser E u).
Proof.
  unfold _setUser.
  apply preserves_bind; [now apply preserves_modify|intros _].
  apply preserves_bind.
  { destruct u; [|apply preserves_ret].
    apply preserves_bind; [apply preserves_new_User|intros x; apply preserves_ret]. }
  intros x. apply preserves_bind; [now apply preserves_modify|intros _].
  apply preserves_bind; [apply preserves_gets|intros cur].
  apply preserves_bind; [apply E_preserves|intros _; apply preserves_gets].
Qed.

Lemma preserves_setUserCredential (c : NativeUserCredential) :
  preserves (_setUserCredential E c).
Proof.
  unfold _setUserCredential.
  apply preserves_bind; [apply preserves_new_User|intros x].
  apply preserves_bind; [now apply preserves_modify|intros _].
  apply preserves_bind; [now apply preserves_modify|intros _].
  apply preserves_bind; [apply preserves_gets|intros cur].
  apply preserves_bind; [apply E_preserves|intros _; apply preserves_ret].
Qed.

Lemma preserves_invoke (l : Listener) (v : Value) : preserves (invoke E l v).
Proof.
  destruct l; simpl.
  - destruct v; try apply preserves_throw.
    apply preserves_bind; [apply preserves_setUser|intros _].
    apply preserves_bind; [apply preserves_gets|intros cur; apply E_preserves].
  - destruct v; try apply preserves_throw. apply E_preserves.
  - destruct v; try apply preserves_throw.
    apply preserves_bind; [apply preserves_setUser|intros _].
    apply preserves_bind; [apply preserves_gets|intros cur; apply E_preserves].
  - apply preserves_verification_handler.
  - now apply preserves_modify.
Qed.

Lemma preserves_deliver (ls : list Listener) (v : Value) :
  preserves (deliver E ls v).
Proof.
  induction ls as [|l ls IH]; simpl; [apply preserves_ret|].
  apply preserves_bind; [apply preserves_invoke|intros _; exact IH].
Qed.

End EmitPreserves.

Lemma preserves_emit (fuel : nat) (t : string) (v : Value) :
  preserves (emit fuel t v).
Proof.
  revert t v. induction fuel as [|f IH]; intros t v.
  - intros st. now split.
  - simpl emit.
    apply preserves_bind; [now apply preserves_modify|intros _].
    apply preserves_bind; [apply preserves_gets|intros ls].
    now apply preserves_deliver.
Qed.

Lemma preserves_register (t : string) (l : nat) : preserves (register t l).
Proof.
  unfold register.
  apply preserves_bind; [now apply preserves_addListener|intros _].
  apply preserves_bind; [apply preserves_gets|intros flag].
  apply preserves_bind; [|intros _; apply preserves_ret].
  destruct flag; [|apply preserves_ret].
  apply preserves_bind; [apply preserves_gets|intros cur].
  now apply preserves_modify.
Qed.

Lemma preserves_verificationStarted (h : nat) (rk : string) :
  preserves (verificationStarted h rk).
Proof.
  unfold verificationStarted.
  repeat (apply preserves_bind; [|intros _]);
    now apply preserves_addListener.
Qed.

Lemma preserves_step (fuel : nat) (a : Action) (st : State) :
  (wf st -> wf (step fuel a st)) /\
  (_authResult st = true -> _authResult (step fuel a st) = true).
Proof.
  destruct a; simpl step; unfold run;
    match goal with
    | |- (wf _ -> wf (snd (?m _))) /\ _ => assert (H : preserves m); [|apply H]
    end.
  - apply preserves_emit.
  - apply preserves_emit.
  - now apply preserves_addListener.
  - apply preserves_register.
  - apply preserves_register.
  - apply preserves_register.
  - now apply preserves_removeListener.
  - apply preserves_verificationStarted.
  - apply preserves_then. intros _.
    apply preserves_bind; [|intros _; apply preserves_ret].
    apply preserves_setUser, preserves_emit.
  - apply preserves_then. intros u. apply preserves_setUser, preserves_emit.
  - apply preserves_then. intros u.
    apply preserves_setUserCredential, preserves_emit.
  - apply preserves_then. intros u. apply preserves_setUser, preserves_emit.
  - apply preserves_then. intros u.
    apply preserves_setUserCredential, preserves_emit.
  - apply preserves_then. intros u. apply preserves_setUser, preserves_emit.
  - apply preserves_then. intros u.
    apply preserves_setUserCredential, preserves_emit.
  - apply preserves_then. intros u. apply preserves_setUser, preserves_emit.
  - apply preserves_then. intros u.
    apply preserves_setUserCredential, preserves_emit.
  - apply preserves_then. intros u. apply preserves_setUser, preserves_emit.
  - apply preserves_then. intros u.
    apply preserves_setUserCredential, preserves_emit.
  - now apply preserves_modify.
  - apply preserves_throw.
  - apply preserves_throw.
  - apply preserves_throw.
  - apply preserves_throw.
  - apply preserves_throw.
Qed.

Lemma steps_wf (fuel : nat) (l : list Action) (st : State) :
  wf st -> wf (steps fuel l st).
Proof.
  revert st. induction l as [|a l IH]; intros st Hw; [exact Hw|].
  simpl. apply IH. now apply preserves_step.
Qed.

Lemma constructor_wf (lang : string) (shared : SharedEventEmitter.registry) :
  registry_ok shared -> wf (constructor lang shared).
Proof.
  intros Hr. unfold constructor. munfold. simpl.
  unfold SharedEventEmitter.addListener, wf, registry_ok in *. simpl. split.
  - repeat (apply Forall_app; split); try exact Hr;
      (constructor; [reflexivity|constructor]).
  - repeat split; rewrite <- !app_assoc; simpl; apply in_or_app; right;
      simpl; auto.
Qed.

(* ================================================================== *)
(** ** The current-user snapshot *)
(* ================================================================== *)

Lemma latest_snoc (es : list NativeEvent) (e : NativeEvent)
      (u : option NativeUser) :
  auth_payload e = Some u -> latest (es ++ [e]) = Some u.
Proof.
  intros He. induction es as [|x es IH]; simpl.
  - exact He.
  - now rewrite IH.
Qed.

(** C1.  Whatever native notifications were delivered before, on whichever
    of the channels and in whatever order, once an [auth_state_changed] or
    [auth_id_token_changed] notification with raw payload [u] has been
    processed last, the run has returned and [currentUser] is the adapted
    form of [u]: a [User] around that very payload, or absent when the
    payload carries no user. *)
Theorem currentUser_follows_latest_notification
        (fuel : nat) (es : list NativeEvent) (e : NativeEvent)
        (u : option NativeUser) (st : State) :
  wf st -> 2 <= fuel -> auth_payload e = Some u ->
  exists st',
    notify_all fuel (es ++ [e]) st = (Returned tt, st') /\
    adapts u (currentUser st').
Proof.
  intros Hw Hf He.
  destruct fuel as [|[|f]]; [lia|lia|].
  destruct (notify_all_run f (es ++ [e]) Hw) as [E [_ Hu]].
  rewrite (latest_snoc es e He) in Hu.
  eexists. split; [exact E|exact Hu].
Qed.

(* ================================================================== *)
(** ** Listener registration *)
(* ================================================================== *)

Lemma register_spec (t : string) (listener : nat) (st : State) :
  exists st',
    register t listener st = (Returned (mkUnsubscribe t (Fn listener)), st') /\
    invoked st' =
      (invoked st ++
       (if _authResult st then [(listener, VUser (currentUser st))] else []))%list /\
    emitted st' = emitted st /\
    currentUser st' = currentUser st /\
    _authResult st' = _authResult st /\
    subscriptions st' = (subscriptions st ++ [(t, Fn listener)])%list.
Proof.
  unfold register. munfold. simpl. destruct (_authResult st) eqn:F; simpl.
  - eexists. split; [reflexivity|]. simpl. rewrite F. repeat split.
  - eexists. split; [reflexivity|]. simpl. rewrite F, app_nil_r.
    repeat split.
Qed.

Lemma quiet_step (fuel : nat) (a : Action) (st : State) :
  quiet a = true -> _authResult st = false ->
  invoked (step fuel a st) = invoked st /\
  _authResult (step fuel a st) = false.
Proof.
  intros Hq Hf.
  destruct a; simpl in Hq; try discriminate Hq;
    try (destruct p; try discriminate Hq);
    try (split; [reflexivity|exact Hf]).
  all: simpl step;
    unfold run, onAuthStateChanged, onIdTokenChanged, onUserChanged;
    match goal with
    | |- context [register ?t ?l ?s] =>
        destruct (register_spec t l s) as [st' [E [I [_ [_ [F _]]]]]];
        rewrite E; simpl snd; rewrite I, F, Hf;
        split; [apply app_nil_r|reflexivity]
    end.
Qed.

Lemma quiet_steps (fuel : nat) (l : list Action) (st : State) :
  Forall (fun a => quiet a = true) l -> _authResult st = false ->
  invoked (steps fuel l st) = invoked st /\
  _authResult (steps fuel l st) = false.
Proof.
  revert st. induction l as [|a l IH]; intros st Hq Hf; [now split|].
  inversion Hq as [|? ? Hq1 Hq2]; subst. simpl.
  destruct (quiet_step fuel a st Hq1 Hf) as [I F].
  destruct (IH _ Hq2 F) as [I' F']. split; congruence.
Qed.

(** C2.  Registering a listener through [onAuthStateChanged],
    [onIdTokenChanged] or [onUserChanged] subscribes it to that public topic
    and, during the registration itself, calls it exactly once with the
    current snapshot (or null) when the Authoritative-Result Flag is already
    true, and not at all when no notification has been processed yet;
    nothing is published and the session is left as it was.  While the flag
    is false, no function at all is called by whatever happens before a
    notification arrives or a provider operation resolves. *)
Theorem registration_replays_snapshot_once
        (fuel : nat) (listener : nat) (l : list Action) (st : State) :
  replays_once onAuthStateChanged (getAppEventName "onAuthStateChanged")
               listener st /\
  replays_once onIdTokenChanged (getAppEventName "onIdTokenChanged")
               listener st /\
  replays_once onUserChanged (getAppEventName "onUserChanged") listener st /\
  (_authResult st = false -> Forall (fun a => quiet a = true) l ->
   invoked (steps fuel l st) = invoked st /\
   _authResult (steps fuel l st) = false).
Proof.
  repeat split; try apply register_spec; now apply quiet_steps.
Qed.

(* ================================================================== *)
(** ** Provider-backed operations *)
(* ================================================================== *)

(** C5.  When the promise of the native call is rejected, each of [signOut],
    the sign-in and sign-up operations and the pass-through operations
    leaves the whole state as it was (snapshot, flag, and the log of emits,
    so nothing is published) and settles with the same rejection. *)
Theorem rejected_provider_call_changes_nothing
        (fuel : nat) (err : Error) (st : State) (a b c : string) :
  signOut fuel (Rejected err) st = (Returned (Rejected err), st) /\
  signInAnonymously fuel (Rejected err) st = (Returned (Rejected err), st) /\
  signInAnonymouslyAndRetrieveData fuel (Rejected err) st =
    (Returned (Rejected err), st) /\
  createUserWithEmailAndPassword fuel a b (Rejected err) st =
    (Returned (Rejected err), st) /\
  createUserAndRetrieveDataWithEmailAndPassword fuel a b (Rejected err) st =
    (Returned (Rejected err), st) /\
  signInWithEmailAndPassword fuel a b (Rejected err) st =
    (Returned (Rejected err), st) /\
  signInAndRetrieveDataWithEmailAndPassword fuel a b (Rejected err) st =
    (Returned (Rejected err), st) /\
  signInWithCustomToken fuel a (Rejected err) st =
    (Returned (Rejected err), st) /\
  signInAndRetrieveDataWithCustomToken fuel a (Rejected err) st =
    (Returned (Rejected err), st) /\
  signInWithCredential fuel a b c (Rejected err) st =
    (Returned (Rejected err), st) /\
  signInAndRetrieveDataWithCredential fuel a b c (Rejected err) st =
    (Returned (Rejected err), st) /\
  signInWithPhoneNumber a (Rejected err) st = (Returned (Rejected err), st) /\
  sendPasswordResetEmail a (Rejected err) st = (Returned (Rejected err), st) /\
  confirmPasswordReset a b (Rejected err) st = (Returned (Rejected err), st) /\
  applyActionCode a (Rejected err) st = (Returned (Rejected err), st) /\
  checkActionCode a (Rejected err) st = (Returned (Rejected err), st) /\
  fetchProvidersForEmail a (Rejected err) st = (Returned (Rejected err), st) /\
  verifyPasswordResetCode a (Rejected err) st = (Returned (Rejected err), st).
Proof. repeat split. Qed.

(** C6.  Each of the five unsupported operations throws, in every state, the
    error whose message [ERROR_UNSUPPORTED_MODULE_METHOD] builds from the
    namespace ["auth"] and the name of that operation, and leaves the whole
    state as it was: no change of snapshot or flag, nothing published. *)
Theorem unsupported_operations_throw (st : State) :
  getRedirectResult st =
    (Thrown (JsError (ERROR_UNSUPPORTED_MODULE_METHOD "auth" "getRedirectResult")), st) /\
  setPersistence st =
    (Thrown (JsError (ERROR_UNSUPPORTED_MODULE_METHOD "auth" "setPersistence")), st) /\
  signInWithPopup st =
    (Thrown (JsError (ERROR_UNSUPPORTED_MODULE_METHOD "auth" "signInWithPopup")), st) /\
  signInWithRedirect st =
    (Thrown (JsError (ERROR_UNSUPPORTED_MODULE_METHOD "auth" "signInWithRedirect")), st) /\
  useDeviceLanguage st =
    (Thrown (JsError (ERROR_UNSUPPORTED_MODULE_METHOD "auth" "useDeviceLanguage")), st).
Proof. repeat split. Qed.

(** C7.  The Authoritative-Result Flag is false after construction, and once
    it is true it is still true after any sequence of notifications,
    emits, registrations, removals and operations of the module, whether
    they return, throw or run out of nesting budget. *)
Theorem authResult_is_monotone
        (lang : string) (shared : SharedEventEmitter.registry)
        (fuel : nat) (l : list Action) (st : State) :
  _authResult (constructor lang shared) = false /\
  (_authResult st = true -> _authResult (steps fuel l st) = true).
Proof.
  split; [reflexivity|].
  revert st. induction l as [|a l IH]; intros st H; [exact H|].
  simpl. apply IH. now apply preserves_step.
Qed.

(** C8.  When [createUserAndRetrieveDataWithEmailAndPassword] resolves with
    a raw credential, the result carries a [User] whose uid is that of the
    raw user, [currentUser] is that same object, exactly one emit is made,
    on the [onUserChanged] topic with that same object, and every function
    subscribed there is called once per subscription with it. *)
Theorem createUserAndRetrieveData_publishes_once
        (fuel : nat) (email password : string) (c : NativeUserCredential)
        (st : State) :
  wf st -> 1 <= fuel ->
  exists r st',
    createUserAndRetrieveDataWithEmailAndPassword fuel email password
      (Resolved c) st = (Returned (Resolved r), st') /\
    User_uid (user r) = uid (nuc_user c) /\
    additionalUserInfo r = nuc_additionalUserInfo c /\
    currentUser st' = Some (user r) /\
    _authResult st' = true /\
    emitted st' =
      (emitted st ++ [(getAppEventName "onUserChanged", VUser (Some (user r)))])%list /\
    SharedEventEmitter.listeners (getAppEventName "onUserChanged")
                                 (subscriptions st) =
      map Fn (fn_ids (SharedEventEmitter.listeners
                        (getAppEventName "onUserChanged") (subscriptions st))) /\
    invoked st' =
      (invoked st ++
       map (fun id => (id, VUser (Some (user r))))
           (fn_ids (SharedEventEmitter.listeners
                      (getAppEventName "onUserChanged") (subscriptions st))))%list.
Proof.
  intros [Hr Hi] Hf. destruct fuel as [|f]; [lia|].
  unfold createUserAndRetrieveDataWithEmailAndPassword, then_.
  rewrite _setUserCredential_leaf by exact Hr.
  eexists. eexists. split; [reflexivity|]. simpl user.
  match goal with
  | |- context [leaf_emit ?t ?v ?s] =>
      destruct (leaf_emit_frame t v s) as [[S1 S2 _ _] [E [I _]]]
  end.
  split; [reflexivity|]. split; [reflexivity|].
  split; [unfold currentUser; now rewrite S1|].
  split; [now rewrite S2|].
  split; [exact E|].
  split; [apply listeners_public; auto|exact I].
Qed.

(* ================================================================== *)
(** ** Phone verification events *)
(* ================================================================== *)

Lemma fn_ids_In (id : nat) (ls : list Listener) :
  In id (fn_ids ls) <-> In (Fn id) ls.
Proof.
  induction ls as [|l ls IH]; simpl; [tauto|].
  destruct l; simpl; rewrite IH; split; intros H; auto;
    try (destruct H as [H|H]; [discriminate H|exact H]).
  - destruct H as [H|H]; [left; now subst|now right].
  - destruct H as [H|H]; [left; now injection H|now right].
Qed.

Lemma calls_of_app (id : nat) (a b : list (nat * Value)) :
  calls_of id (a ++ b) = (calls_of id a ++ calls_of id b)%list.
Proof. unfold calls_of. now rewrite filter_app, map_app. Qed.

Lemma calls_of_others (id : nat) (v : Value) (ids : list nat) :
  ~ In id ids -> calls_of id (map (fun i => (i, v)) ids) = [].
Proof.
  unfold calls_of. induction ids as [|i ids IH]; intros H; [reflexivity|].
  simpl. destruct (Nat.eqb_spec i id) as [E|N].
  - exfalso. apply H. now left.
  - apply IH. intros Hin. apply H. now right.
Qed.

Lemma emits_on_app (t : string) (a b : list (string * Value)) :
  emits_on t (a ++ b) = (emits_on t a ++ emits_on t b)%list.
Proof. unfold emits_on. now rewrite filter_app, map_app. Qed.

Lemma emits_on_repeat_other (t t' : string) (v : Value) (k : nat) :
  t' <> t -> emits_on t (repeat (t', v) k) = [].
Proof.
  intros N. unfold emits_on. induction k as [|k IH]; [reflexivity|].
  simpl. destruct (string_dec t' t); [contradiction|exact IH].
Qed.

Lemma native_fold_emitted_phone (rk ty : string) (s : PhoneState)
      (ls : list Listener) (st : State) :
  emitted (fold_left (native_effect (phone_auth_state_changed rk ty s)) ls st) =
  (emitted st ++
   repeat (phone_event_key rk ty, VPhoneState s)
          (count_occ Listener_eq_dec ls OnNativePhoneAuthState))%list.
Proof.
  revert st. induction ls as [|l ls IH]; intros st.
  - simpl. now rewrite app_nil_r.
  - simpl fold_left. rewrite IH.
    destruct l; simpl native_effect;
      try (rewrite count_occ_cons_neq by discriminate; reflexivity).
    rewrite count_occ_cons_eq by reflexivity.
    rewrite (proj1 (proj2 (leaf_emit_frame _ _ _))).
    now rewrite <- app_assoc.
Qed.

Lemma native_fold_calls_phone (rk ty : string) (s : PhoneState) (id : nat)
      (r0 : SharedEventEmitter.registry) (ls : list Listener) (st : State) :
  thinned r0 (subscriptions st) ->
  ~ In (Fn id) ls ->
  ~ In (phone_event_key rk ty, Fn id) r0 ->
  calls_of id
    (invoked (fold_left (native_effect (phone_auth_state_changed rk ty s)) ls st)) =
  calls_of id (invoked st).
Proof.
  intros T Hl Hk. revert st T. induction ls as [|l ls IH]; intros st T.
  - reflexivity.
  - simpl fold_left. rewrite IH.
    + destruct l; simpl native_effect; try reflexivity.
      * rewrite (proj1 (proj2 (proj2 (leaf_emit_frame _ _ _)))).
        rewrite calls_of_app, calls_of_others; [now rewrite app_nil_r|].
        rewrite fn_ids_In, listeners_In. intros Hin. apply Hk.
        apply (thinned_In _ T); [reflexivity|exact Hin].
      * simpl. rewrite calls_of_app. unfold calls_of at 2. simpl.
        destruct (Nat.eqb_spec id0 id) as [E|N]; [|now rewrite app_nil_r].
        exfalso. apply Hl. left. now subst.
    + intros Hin. apply Hl. now right.
    + eapply thinned_trans; [exact T|apply native_effect_thinned].
Qed.

(** C10.  The delivery of a [phone_auth_state_changed] event, whatever its
    request key and type, returns and leaves [currentUser] and the
    Authoritative-Result Flag as they were, and adds no emit on the
    [onAuthStateChanged], [onIdTokenChanged] or [onUserChanged] topic. *)
Theorem phone_event_leaves_session_untouched
        (fuel : nat) (rk ty : string) (s : PhoneState) (st : State) :
  wf st -> 2 <= fuel ->
  exists st',
    notify fuel (phone_auth_state_changed rk ty s) st = (Returned tt, st') /\
    currentUser st' = currentUser st /\
    _authResult st' = _authResult st /\
    emits_on (getAppEventName "onAuthStateChanged") (emitted st') =
      emits_on (getAppEventName "onAuthStateChanged") (emitted st) /\
    emits_on (getAppEventName "onIdTokenChanged") (emitted st') =
      emits_on (getAppEventName "onIdTokenChanged") (emitted st) /\
    emits_on (getAppEventName "onUserChanged") (emitted st') =
      emits_on (getAppEventName "onUserChanged") (emitted st).
Proof.
  intros [Hr Hi] Hf. destruct fuel as [|[|f]]; [lia|lia|].
  rewrite notify_eq by exact Hr. eexists. split; [reflexivity|].
  match goal with
  | |- context [fold_left ?g ?ls ?s0] =>
      pose proof (native_fold_session_phone rk ty s ls s0) as [S1 S2 _ _];
      pose proof (native_fold_emitted_phone rk ty s ls s0) as E
  end.
  split; [exact S1|]. split; [exact S2|].
  rewrite E. simpl emitted. simpl native_name.
  assert (Q : forall name,
             name = "onAuthStateChanged" \/ name = "onIdTokenChanged" \/
             name = "onUserChanged" ->
             emits_on (getAppEventName name)
               ((emitted st ++
                 [(getAppEventName "phone_auth_state_changed",
                   native_payload (phone_auth_state_changed rk ty s))]) ++
                repeat (phone_event_key rk ty, VPhoneState s)
                  (count_occ Listener_eq_dec
                     (SharedEventEmitter.listeners
                        (getAppEventName "phone_auth_state_changed")
                        (subscriptions st)) OnNativePhoneAuthState)) =
             emits_on (getAppEventName name) (emitted st)).
  { intros name Hn. rewrite !emits_on_app.
    rewrite emits_on_repeat_other by apply phone_event_key_not_app.
    unfold emits_on at 2. simpl.
    destruct (string_dec (getAppEventName "phone_auth_state_changed")
                         (getAppEventName name)) as [D|D].
    - apply getAppEventName_inj in D.
      destruct Hn as [Hn|[Hn|Hn]]; subst name; discriminate D.
    - simpl. now rewrite !app_nil_r. }
  repeat split; apply Q; auto.
Qed.

Lemma native_fold_invoked_grows (e : NativeEvent) (ls : list Listener)
      (st : State) :
  exists extra,
    invoked (fold_left (native_effect e) ls st) = (invoked st ++ extra)%list.
Proof.
  revert st. induction ls as [|l ls IH]; intros st; simpl fold_left.
  - exists []. now rewrite app_nil_r.
  - destruct (IH (native_effect e st l)) as [x Hx]. rewrite Hx.
    assert (H : exists y, invoked (native_effect e st l) = (invoked st ++ y)%list).
    { destruct l, e; simpl native_effect;
        try (exists []; now rewrite app_nil_r);
        try (eexists; reflexivity);
        unfold bridge;
        repeat rewrite (proj1 (proj2 (proj2 (leaf_emit_frame _ _ _))));
        try rewrite <- app_assoc;
        try (destruct user0; simpl invoked);
        eexists; reflexivity. }
    destruct H as [y Hy]. rewrite Hy, <- app_assoc. eexists. reflexivity.
Qed.

Lemma native_fold_delivers_phone (rk ty : string) (s : PhoneState) (id : nat)
      (r0 : SharedEventEmitter.registry) (ls : list Listener) (st : State) :
  thinned r0 (subscriptions st) ->
  In OnNativePhoneAuthState ls ->
  In (phone_event_key rk ty, Fn id) r0 ->
  In (id, VPhoneState s)
     (invoked (fold_left (native_effect (phone_auth_state_changed rk ty s)) ls st)).
Proof.
  intros T Hl Hk. revert st T. induction ls as [|l ls IH]; intros st T.
  - destruct Hl.
  - simpl fold_left.
    destruct (Listener_eq_dec l OnNativePhoneAuthState) as [E|N].
    + subst l. simpl native_effect.
      destruct (native_fold_invoked_grows (phone_auth_state_changed rk ty s) ls
                  (leaf_emit (phone_event_key rk ty) (VPhoneState s) st))
        as [x Hx].
      rewrite Hx, (proj1 (proj2 (proj2 (leaf_emit_frame _ _ _)))).
      apply in_or_app. left. apply in_or_app. right.
      apply (in_map (fun i => (i, VPhoneState s))).
      apply fn_ids_In, listeners_In.
      apply (thinned_In _ T); [reflexivity|exact Hk].
    + apply IH.
      * destruct Hl as [Hl|Hl]; [congruence|exact Hl].
      * eapply thinned_trans; [exact T|apply native_effect_thinned].
Qed.

(** C3 (amended).  A phone event tagged with request key [r1] and a type
    without [":"] is re-published, and only, on the topic
    ["phone:auth:" + r1 + ":" + type]; every function subscribed there is
    called with the state of the event; and a function whose subscriptions
    all sit on such topics of another request key [r2] is not called. *)
Theorem phone_event_demultiplexed
        (fuel : nat) (r1 r2 ty : string) (s : PhoneState) (id : nat)
        (st : State) :
  wf st -> 2 <= fuel -> r1 <> r2 -> colon_free ty ->
  (forall t, In (t, Fn id) (subscriptions st) ->
             exists p, colon_free p /\ t = phone_event_key r2 p) ->
  exists st' k,
    notify fuel (phone_auth_state_changed r1 ty s) st = (Returned tt, st') /\
    1 <= k /\
    phone_event_key r1 ty = ("phone:auth:" ++ r1 ++ ":" ++ ty)%string /\
    emitted st' =
      (emitted st ++
       (getAppEventName "phone_auth_state_changed", VPhoneEvent r1 ty s)
       :: repeat (phone_event_key r1 ty, VPhoneState s) k)%list /\
    (forall j, In (phone_event_key r1 ty, Fn j) (subscriptions st) ->
               In (j, VPhoneState s) (invoked st')) /\
    calls_of id (invoked st') = calls_of id (invoked st).
Proof.
  intros [Hr [I1 [I2 I3]]] Hf Hd Hc Hsub.
  destruct fuel as [|[|f]]; [lia|lia|].
  rewrite notify_eq by exact Hr. simpl native_name. simpl native_payload.
  eexists. eexists. split; [reflexivity|].
  split; [|split; [reflexivity|split; [|split]]].
  - apply (proj1 (count_occ_In Listener_eq_dec
             (SharedEventEmitter.listeners
                (getAppEventName "phone_auth_state_changed") (subscriptions st))
             OnNativePhoneAuthState)).
    now apply listeners_In.
  - rewrite native_fold_emitted_phone. simpl emitted.
    now rewrite <- app_assoc.
  - intros j Hj.
    apply native_fold_delivers_phone with (r0 := subscriptions st).
    + apply thinned_refl.
    + now apply listeners_In.
    + exact Hj.
  - rewrite native_fold_calls_phone with (r0 := subscriptions st).
    + reflexivity.
    + apply thinned_refl.
    + rewrite listeners_In. intros Hin.
      destruct (Hsub _ Hin) as [p [_ Hp]]. symmetry in Hp.
      now apply phone_event_key_not_app in Hp.
    + intros Hin. destruct (Hsub _ Hin) as [p [Hp E]].
      destruct (phone_event_key_inj Hc Hp E) as [E1 _]. contradiction.
Qed.

(* ================================================================== *)
(** ** Unsubscribing *)
(* ================================================================== *)

Lemma filter_all (A : Type) (f : A -> bool) (l : list A) :
  (forall x, In x l -> f x = true) -> filter f l = l.
Proof.
  induction l as [|x l IH]; intros H; simpl; [reflexivity|].
  rewrite (H x) by now left.
  f_equal. apply IH. intros y Hy. apply H. now right.
Qed.

Lemma same_iff (t : string) (l : Listener) (e : string * Listener) :
  SharedEventEmitter.same t l e = true <-> e = (t, l).
Proof.
  destruct e as [t' l']. unfold SharedEventEmitter.same. simpl.
  destruct (string_dec t' t), (Listener_eq_dec l' l); simpl; split;
    intros H; try discriminate H; try reflexivity; try congruence.
Qed.

Lemma removeListener_absent (t : string) (l : Listener)
      (r : SharedEventEmitter.registry) :
  ~ In (t, l) r -> SharedEventEmitter.removeListener t l r = r.
Proof.
  intros H. apply filter_all. intros e He.
  destruct (SharedEventEmitter.same t l e) eqn:S; [|reflexivity].
  apply same_iff in S. subst e. contradiction.
Qed.

Lemma removeListener_gone (t : string) (l : Listener)
      (r : SharedEventEmitter.registry) :
  ~ In (t, l) (SharedEventEmitter.removeListener t l r).
Proof.
  intros H. apply filter_In in H. destruct H as [_ H].
  rewrite (proj2 (same_iff t l (t, l)) eq_refl) in H. discriminate H.
Qed.

Lemma removeListener_listeners (t t' : string) (l : Listener)
      (r : SharedEventEmitter.registry) :
  SharedEventEmitter.listeners t' (SharedEventEmitter.removeListener t l r) =
  if string_dec t' t
  then remove Listener_eq_dec l (SharedEventEmitter.listeners t' r)
  else SharedEventEmitter.listeners t' r.
Proof.
  unfold SharedEventEmitter.listeners, SharedEventEmitter.removeListener,
    SharedEventEmitter.same.
  induction r as [|[a b] r IH]; simpl.
  - now destruct (string_dec t' t).
  - destruct (string_dec a t) as [E1|N1], (Listener_eq_dec b l) as [E2|N2];
      simpl; destruct (string_dec a t') as [E3|N3]; simpl;
      destruct (string_dec t' t) as [E4|N4]; simpl in *;
      try congruence;
      try (destruct (Listener_eq_dec l b); congruence).
Qed.

Lemma set_subscriptions_same (st : State) :
  set_subscriptions (subscriptions st) st = st.
Proof. now destruct st. Qed.

(** C9 (amended).  The unsubscribe function never fails and removes every
    subscription of its listener function on its topic, leaving the other
    listeners of that topic, every other topic and the session as they
    were; called again at once, or when that function has no subscription on
    that topic, it changes nothing. *)
Theorem unsubscribe_is_idempotent (u : Unsubscribe) (st : State) :
  unsubscribe u st = (Returned tt, run (unsubscribe u) st) /\
  unsubscribe u (run (unsubscribe u) st) = (Returned tt, run (unsubscribe u) st) /\
  (~ In (un_topic u, un_listener u) (subscriptions st) ->
   run (unsubscribe u) st = st) /\
  ~ In (un_topic u, un_listener u) (subscriptions (run (unsubscribe u) st)) /\
  (forall t,
     SharedEventEmitter.listeners t (subscriptions (run (unsubscribe u) st)) =
     if string_dec t (un_topic u)
     then remove Listener_eq_dec (un_listener u)
                 (SharedEventEmitter.listeners t (subscriptions st))
     else SharedEventEmitter.listeners t (subscriptions st)) /\
  same_session st (run (unsubscribe u) st) /\
  emitted (run (unsubscribe u) st) = emitted st /\
  invoked (run (unsubscribe u) st) = invoked st.
Proof.
  assert (R : forall s, unsubscribe u s =
                (Returned tt,
                 set_subscriptions
                   (SharedEventEmitter.removeListener (un_topic u) (un_listener u)
                      (subscriptions s)) s)) by reflexivity.
  unfold run. rewrite !R. cbn [snd].
  pose proof (removeListener_gone (un_topic u) (un_listener u)
                (subscriptions st)) as G.
  split; [reflexivity|]. split.
  - f_equal. unfold set_subscriptions.
    cbn -[SharedEventEmitter.removeListener].
    now rewrite (removeListener_absent _ _ _ G).
  - split.
    + intros H. rewrite removeListener_absent by exact H.
      apply set_subscriptions_same.
    + split; [exact G|].
      split; [intros t; apply removeListener_listeners|].
      split; [now constructor|now split].
Qed.

(* ================================================================== *)
(** ** The life of a verification request *)
(* ================================================================== *)

Lemma may_follow_snoc (ps : list Phase) (p q : Phase) :
  may_follow ps q = true -> is_terminal p = false -> p <> q ->
  may_follow (ps ++ [p]) q = true.
Proof.
  unfold may_follow. rewrite !existsb_app. simpl. intros H Hp Hn.
  apply andb_true_iff in H. destruct H as [H1 H2].
  apply negb_true_iff in H1. apply negb_true_iff in H2.
  rewrite H1, H2, Hp. simpl.
  destruct (Phase_eq_dec p q); [contradiction|reflexivity].
Qed.

Lemma may_follow_fresh (ps : list Phase) (p : Phase) :
  may_follow ps p = true ->
  count_occ Phase_eq_dec ps p = 0 /\
  (forall t, is_terminal t = true -> count_occ Phase_eq_dec ps t = 0).
Proof.
  unfold may_follow. intros H. apply andb_true_iff in H.
  destruct H as [H1 H2].
  apply negb_true_iff in H1. apply negb_true_iff in H2. split.
  - apply count_occ_not_In. intros Hin.
    assert (E : existsb (fun q => if Phase_eq_dec q p then true else false) ps
                = true).
    { apply existsb_exists. exists p. split; [exact Hin|].
      destruct (Phase_eq_dec p p); [reflexivity|contradiction]. }
    congruence.
  - intros t Ht. apply count_occ_not_In. intros Hin.
    assert (E : existsb is_terminal ps = true).
    { apply existsb_exists. now exists t. }
    congruence.
Qed.

Lemma lifecycle_counts (ps : list Phase) :
  lifecycle ps ->
  count_occ Phase_eq_dec ps codeSent <= 1 /\
  count_occ Phase_eq_dec ps autoVerifyTimeout <= 1 /\
  count_occ Phase_eq_dec ps autoVerified + count_occ Phase_eq_dec ps error <= 1.
Proof.
  induction 1 as [|ps p L [I1 [I2 I3]] M]; [simpl; lia|].
  destruct (may_follow_fresh ps p M) as [F1 F2].
  pose proof (F2 autoVerified eq_refl) as T1.
  pose proof (F2 error eq_refl) as T2.
  rewrite !count_occ_app. destruct p; simpl; lia.
Qed.

Lemma lifecycle_terminal_last (ps : list Phase) :
  lifecycle ps ->
  forall a p b, ps = (a ++ p :: b)%list -> is_terminal p = true -> b = [].
Proof.
  induction 1 as [|ps q L IH M]; intros a p b E Hp.
  - destruct a; discriminate E.
  - destruct (exists_last (l := p :: b)) as [b' [q' Eb]]; [discriminate|].
    destruct b' as [|x b'].
    + simpl in Eb. injection Eb as _ Eb. exact Eb.
    + exfalso. simpl in Eb. injection Eb as Ex Eb. subst x.
      rewrite Eb in E.
      change (a ++ p :: b' ++ [q'])%list with (a ++ (p :: b') ++ [q'])%list in E.
      rewrite app_assoc in E. apply app_inj_tail in E. destruct E as [E _].
      unfold may_follow in M. apply andb_true_iff in M. destruct M as [M _].
      apply negb_true_iff in M.
      assert (X : existsb is_terminal ps = true).
      { apply existsb_exists. exists p. split; [|exact Hp].
        rewrite E. apply in_or_app. right. now left. }
      congruence.
Qed.

Lemma filter_comm (A : Type) (f g : A -> bool) (l : list A) :
  filter f (filter g l) = filter g (filter f l).
Proof.
  rewrite !filter_filter. apply filter_ext. intros x. apply andb_comm.
Qed.

Lemma hsubs_remove_other (h : nat) (t : string) (l : Listener)
      (r : SharedEventEmitter.registry) :
  owned_by h l = false ->
  hsubs h (SharedEventEmitter.removeListener t l r) = hsubs h r.
Proof.
  intros Ho. unfold hsubs, SharedEventEmitter.removeListener.
  rewrite filter_filter. apply filter_ext_in. intros e He.
  destruct (SharedEventEmitter.same t l e) eqn:S; simpl; [|reflexivity].
  apply same_iff in S. subst e. simpl. now rewrite Ho.
Qed.

Lemma hsubs_remove_own (h : nat) (t : string) (l : Listener)
      (r : SharedEventEmitter.registry) :
  hsubs h (SharedEventEmitter.removeListener t l r) =
  filter (fun e => negb (SharedEventEmitter.same t l e)) (hsubs h r).
Proof. unfold hsubs, SharedEventEmitter.removeListener. apply filter_comm. Qed.

Lemma phases_of_snoc (h h' : nat) (p : Phase) (v : Value)
      (log : list (nat * Phase * Value)) :
  phases_of h (log ++ [(h', p, v)]) =
  (phases_of h log ++ (if Nat.eqb h' h then [p] else []))%list.
Proof.
  unfold phases_of. rewrite filter_app, map_app. simpl.
  now destruct (Nat.eqb h' h).
Qed.

Lemma verification_handler_effect (h : nat) (rk : string) (p : Phase)
      (v : Value) (st : State) :
  observed (run (verification_handler h rk p v) st) =
    (observed st ++ [(h, p, v)])%list /\
  subscriptions (run (verification_handler h rk p v) st) =
    if is_terminal p then
      SharedEventEmitter.removeListener
        (phone_event_key rk (phase_name error)) (Verification h rk error)
        (SharedEventEmitter.removeListener
           (phone_event_key rk (phase_name autoVerified))
           (Verification h rk autoVerified)
           (SharedEventEmitter.removeListener
              (phone_event_key rk (phase_name autoVerifyTimeout))
              (Verification h rk autoVerifyTimeout)
              (SharedEventEmitter.removeListener
                 (phone_event_key rk (phase_name codeSent))
                 (Verification h rk codeSent) (subscriptions st))))
    else
      SharedEventEmitter.removeListener
        (phone_event_key rk (phase_name p)) (Verification h rk p)
        (subscriptions st).
Proof. destruct p; split; reflexivity. Qed.

Lemma request_inv_same (h : nat) (rk : string) (st st' : State) :
  hsubs h (subscriptions st') = hsubs h (subscriptions st) ->
  phases_of h (observed st') = phases_of h (observed st) ->
  request_inv h rk st -> request_inv h rk st'.
Proof. unfold request_inv. intros -> ->. auto. Qed.

Lemma leaf_effect_other (h : nat) (v : Value) (st : State) (l : Listener) :
  owned_by h l = false ->
  hsubs h (subscriptions (leaf_effect v st l)) = hsubs h (subscriptions st) /\
  phases_of h (observed (leaf_effect v st l)) = phases_of h (observed st).
Proof.
  intros Ho. destruct l as [| | |h' rk' p'|id]; try (split; reflexivity).
  simpl in Ho. simpl leaf_effect.
  destruct (verification_handler_effect h' rk' p' v st) as [-> ->].
  split.
  - destruct (is_terminal p'); now rewrite !hsubs_remove_other.
  - now rewrite phases_of_snoc, Ho, app_nil_r.
Qed.

Lemma canon_inj (h : nat) (rk : string) (p q : Phase) :
  canon h rk p = canon h rk q -> p = q.
Proof. unfold canon. intros H. now injection H. Qed.

Lemma leaf_effect_own (h : nat) (rk : string) (p : Phase) (v : Value)
      (st : State) :
  request_inv h rk st ->
  In (canon h rk p) (hsubs h (subscriptions st)) ->
  request_inv h rk (leaf_effect v st (Verification h rk p)).
Proof.
  intros [Hn [Hc Hl]] Hin. simpl leaf_effect.
  destruct (verification_handler_effect h rk p v st) as [Eo Es].
  destruct (Hc _ Hin) as [p0 [E0 M]]. apply canon_inj in E0. subst p0.
  unfold request_inv. rewrite Eo, Es, phases_of_snoc, Nat.eqb_refl.
  split; [|split].
  - destruct (is_terminal p); rewrite !hsubs_remove_own;
      repeat (first [exact Hn|apply NoDup_filter]).
  - intros e He. destruct (is_terminal p) eqn:T.
    + exfalso. rewrite !hsubs_remove_own in He.
      do 4 (apply filter_In in He; destruct He as [He ?]).
      destruct (Hc _ He) as [q [Eq _]]. subst e.
      repeat match goal with
             | H : negb (SharedEventEmitter.same _ _ _) = true |- _ =>
                 apply negb_true_iff in H
             end.
      unfold canon in *.
      destruct q;
        match goal with
        | H : SharedEventEmitter.same ?t ?l (?t, ?l) = false |- _ =>
            rewrite (proj2 (same_iff t l (t, l)) eq_refl) in H; discriminate H
        end.
    + rewrite hsubs_remove_own in He. apply filter_In in He.
      destruct He as [He Hs]. apply negb_true_iff in Hs.
      destruct (Hc _ He) as [q [Eq Mq]]. subst e. exists q.
      split; [reflexivity|]. apply may_follow_snoc; [exact Mq|exact T|].
      intros ->. unfold canon in Hs.
      rewrite (proj2 (same_iff _ _ (_, _)) eq_refl) in Hs.
      discriminate Hs.
  - now apply lifecycle_snoc.
Qed.

Lemma hsubs_In (h : nat) (t : string) (l : Listener)
      (r : SharedEventEmitter.registry) :
  owned_by h l = true -> In (t, l) r -> In (t, l) (hsubs h r).
Proof. intros Ho Hin. apply filter_In. now split. Qed.

Lemma leaf_fold_request_inv (h : nat) (rk : string) (t : string) (v : Value)
      (ls : list Listener) (st : State) :
  request_inv h rk st ->
  (forall l, In l ls -> owned_by h l = true ->
             In (t, l) (hsubs h (subscriptions st))) ->
  length (filter (owned_by h) ls) <= 1 ->
  request_inv h rk (fold_left (leaf_effect v) ls st).
Proof.
  revert st. induction ls as [|l ls IH]; intros st Hi Hs Hlen; [exact Hi|].
  simpl fold_left. simpl in Hlen. destruct (owned_by h l) eqn:Ho.
  - assert (Hnone : filter (owned_by h) ls = []).
    { destruct (filter (owned_by h) ls); [reflexivity|simpl in Hlen; lia]. }
    pose proof (Hs l (or_introl eq_refl) Ho) as Hin.
    destruct (proj1 (proj2 Hi) _ Hin) as [p [E _]].
    unfold canon in E. injection E as Et El. subst l.
    apply IH.
    + apply leaf_effect_own; [exact Hi|]. unfold canon. now rewrite <- Et.
    + intros l Hl Hol. exfalso.
      assert (X : In l (filter (owned_by h) ls)) by (apply filter_In; now split).
      rewrite Hnone in X. destruct X.
    + rewrite Hnone. simpl. lia.
  - destruct (leaf_effect_other h v st l Ho) as [E1 E2].
    apply IH.
    + eapply request_inv_same; eauto.
    + intros l' Hl' Ho'. rewrite E1. apply Hs; [now right|exact Ho'].
    + exact Hlen.
Qed.

Lemma NoDup_all_equal (A : Type) (l : list A) :
  NoDup l -> (forall x y, In x l -> In y l -> x = y) -> length l <= 1.
Proof.
  intros Hn He. destruct l as [|x [|y l]]; simpl; try lia.
  exfalso. inversion Hn as [|? ? Hx _]; subst. apply Hx.
  left. apply He; simpl; auto.
Qed.

Lemma owned_listeners (h : nat) (t : string) (r : SharedEventEmitter.registry) :
  filter (owned_by h) (SharedEventEmitter.listeners t r) =
  SharedEventEmitter.listeners t (hsubs h r).
Proof.
  unfold SharedEventEmitter.listeners, hsubs.
  induction r as [|[a b] r IH]; simpl; [reflexivity|].
  destruct (string_dec a t), (owned_by h b) eqn:Ho; simpl;
    try rewrite Ho; simpl;
    try (destruct (string_dec a t); [|contradiction]); simpl;
    try (destruct (string_dec a t); [contradiction|]); simpl;
    now rewrite IH.
Qed.

Lemma leaf_emit_request_inv (h : nat) (rk : string) (t : string) (v : Value)
      (st : State) :
  request_inv h rk st -> request_inv h rk (leaf_emit t v st).
Proof.
  intros Hi. unfold leaf_emit.
  apply leaf_fold_request_inv with (t := t).
  - exact Hi.
  - simpl. intros l Hl Ho. apply hsubs_In; [exact Ho|].
    now apply listeners_In.
  - rewrite owned_listeners. unfold SharedEventEmitter.listeners.
    rewrite length_map. destruct Hi as [Hn [Hc _]].
    apply NoDup_all_equal; [now apply NoDup_filter|].
    intros x y Hx Hy. apply filter_In in Hx. apply filter_In in Hy.
    destruct Hx as [Hx Tx], Hy as [Hy Ty].
    destruct (Hc _ Hx) as [p [-> _]]. destruct (Hc _ Hy) as [q [-> _]].
    unfold canon in Tx, Ty. cbn [fst] in Tx, Ty.
    destruct (string_dec (phone_event_key rk (phase_name p)) t) as [E1|];
      [|discriminate Tx].
    destruct (string_dec (phone_event_key rk (phase_name q)) t) as [E2|];
      [|discriminate Ty].
    rewrite <- E2 in E1. apply phone_event_key_type_inj in E1.
    apply phase_name_inj in E1. now subst.
Qed.

Lemma adopt_request_inv (h : nat) (rk : string) (u : option NativeUser)
      (st : State) :
  request_inv h rk st -> request_inv h rk (adopt u st).
Proof. apply request_inv_same; now destruct u. Qed.

Lemma bridge_request_inv (h : nat) (rk : string) (public : string)
      (u : option NativeUser) (st : State) :
  request_inv h rk st -> request_inv h rk (bridge public u st).
Proof.
  intros H. unfold bridge.
  now apply leaf_emit_request_inv, leaf_emit_request_inv, adopt_request_inv.
Qed.

Lemma native_effect_request_inv (h : nat) (rk : string) (e : NativeEvent)
      (st : State) (l : Listener) :
  request_inv h rk st -> request_inv h rk (native_effect e st l).
Proof.
  intros H. destruct l, e; simpl native_effect; try exact H;
    try (now apply bridge_request_inv);
    try (now apply leaf_emit_request_inv);
    now apply request_inv_same with (st := st).
Qed.

Lemma native_fold_request_inv (h : nat) (rk : string) (e : NativeEvent)
      (ls : list Listener) (st : State) :
  request_inv h rk st -> request_inv h rk (fold_left (native_effect e) ls st).
Proof.
  revert st. induction ls as [|l ls IH]; intros st H; [exact H|].
  simpl. apply IH. now apply native_effect_request_inv.
Qed.

Lemma notify_request_inv (h : nat) (rk : string) (f : nat) (e : NativeEvent)
      (st : State) :
  registry_ok (subscriptions st) ->
  request_inv h rk st -> request_inv h rk (run (notify (S (S f)) e) st).
Proof.
  intros Hr H. unfold run. rewrite notify_eq by exact Hr. simpl snd.
  apply native_fold_request_inv. now apply request_inv_same with (st := st).
Qed.

Lemma then_setUser_request_inv (h : nat) (rk : string) (f : nat) (A : Type)
      (p : Settled A) (g : A -> option NativeUser) (st : State) :
  registry_ok (subscriptions st) -> request_inv h rk st ->
  request_inv h rk (run (then_ p (fun a => _setUser (emit (S f)) (g a))) st).
Proof.
  intros Hr H. destruct p as [a|e]; [|exact H].
  unfold run, then_. rewrite _setUser_leaf by exact Hr. cbn [snd].
  apply leaf_emit_request_inv.
  exact (@adopt_request_inv h rk (g a) st H).
Qed.

Lemma then_setUserCredential_request_inv (h : nat) (rk : string) (f : nat)
      (p : Settled NativeUserCredential) (st : State) :
  registry_ok (subscriptions st) -> request_inv h rk st ->
  request_inv h rk
    (run (then_ p (fun c => _setUserCredential (emit (S f)) c)) st).
Proof.
  intros Hr H. destruct p as [c|e]; [|exact H].
  unfold run, then_. rewrite _setUserCredential_leaf by exact Hr. cbn [snd].
  apply leaf_emit_request_inv. now apply request_inv_same with (st := st).
Qed.

Lemma signOut_request_inv (h : nat) (rk : string) (f : nat)
      (p : Settled unit) (st : State) :
  registry_ok (subscriptions st) -> request_inv h rk st ->
  request_inv h rk (run (signOut (S f) p) st).
Proof.
  intros Hr H. destruct p as [a|e]; [|exact H].
  unfold run, signOut, then_, bind. rewrite _setUser_leaf by exact Hr.
  cbn [snd]. apply leaf_emit_request_inv.
  exact (@adopt_request_inv h rk None st H).
Qed.

Lemma hsubs_app (h : nat) (r r' : SharedEventEmitter.registry) :
  hsubs h (r ++ r') = (hsubs h r ++ hsubs h r')%list.
Proof. apply filter_app. Qed.

Lemma register_request_inv (h : nat) (rk : string) (t : string) (l : nat)
      (st : State) :
  request_inv h rk st -> request_inv h rk (run (register t l) st).
Proof.
  destruct (register_spec t l st) as [st' [E [_ [_ [_ [_ Es]]]]]].
  unfold run. rewrite E. simpl snd. apply request_inv_same.
  - rewrite Es, hsubs_app. simpl. now rewrite app_nil_r.
  - unfold register in E. revert E. munfold. simpl.
    destruct (_authResult st); simpl; intros E; injection E as <-; reflexivity.
Qed.

Lemma step_request_inv (h : nat) (rk : string) (f : nat) (a : Action)
      (st : State) :
  wf st -> allowed h a = true ->
  request_inv h rk st -> request_inv h rk (step (S (S f)) a st).
Proof.
  intros [Hr _] Ha H. destruct a; simpl in Ha; try discriminate Ha;
    simpl step;
    try (now apply register_request_inv);
    try (now apply then_setUser_request_inv
           with (g := fun u : NativeUser => Some u));
    try (now apply then_setUserCredential_request_inv);
    try exact H.
  - now apply notify_request_inv.
  - unfold run, addListener, modify. simpl. apply request_inv_same with (st := st);
      [|reflexivity|exact H].
    simpl. unfold SharedEventEmitter.addListener.
    rewrite hsubs_app. simpl. now rewrite app_nil_r.
  - unfold run, unsubscribe, removeListener, modify. simpl.
    apply request_inv_same with (st := st); [|reflexivity|exact H].
    simpl. now apply hsubs_remove_other.
  - apply negb_true_iff in Ha.
    unfold run, verificationStarted, addListener, modify, bind. simpl.
    apply request_inv_same with (st := st); [|reflexivity|exact H].
    simpl. unfold SharedEventEmitter.addListener.
    rewrite !hsubs_app. simpl. rewrite Ha. simpl.
    now rewrite !app_nil_r.
  - now apply signOut_request_inv.
Qed.

Lemma steps_request_inv (h : nat) (rk : string) (f : nat) (l : list Action)
      (st : State) :
  wf st -> Forall (fun a => allowed h a = true) l ->
  request_inv h rk st -> request_inv h rk (steps (S (S f)) l st).
Proof.
  revert st. induction l as [|a l IH]; intros st Hw Ha H; [exact H|].
  inversion Ha as [|? ? Ha1 Ha2]; subst. simpl. apply IH.
  - now apply preserves_step.
  - exact Ha2.
  - now apply step_request_inv.
Qed.

Lemma verificationStarted_request_inv (h : nat) (rk : string) (st : State) :
  hsubs h (subscriptions st) = [] -> phases_of h (observed st) = [] ->
  request_inv h rk (run (verificationStarted h rk) st).
Proof.
  intros Hs Ho.
  assert (E : hsubs h (subscriptions (run (verificationStarted h rk) st)) =
              [canon h rk codeSent; canon h rk autoVerifyTimeout;
               canon h rk autoVerified; canon h rk error]).
  { unfold run, verificationStarted, addListener, modify, bind. simpl.
    unfold SharedEventEmitter.addListener. rewrite !hsubs_app, Hs. simpl.
    now rewrite Nat.eqb_refl. }
  unfold request_inv. rewrite E.
  change (observed (run (verificationStarted h rk) st)) with (observed st).
  rewrite Ho. split; [|split].
  - repeat constructor; simpl; intros X;
      repeat (destruct X as [X|X]; [discriminate X|]); exact X.
  - intros e He. simpl in He.
    destruct He as [<-|[<-|[<-|[<-|[]]]]]; eexists; split; reflexivity.
  - constructor.
Qed.

(** C4.  A verification handle is subscribed for a request key and then
    lives through any sequence of native notifications (for any request
    keys), registrations, removals, other verifications and operations.
    Among the phases handed to its observers, [codeSent] and
    [autoVerifyTimeout] occur at most once each, at most one terminal phase
    ([autoVerified] or [error]) occurs, and nothing follows a terminal
    phase. *)
Theorem verification_ends_with_one_terminal
        (fuel : nat) (h : nat) (rk : string) (l : list Action) (st : State) :
  wf st -> 2 <= fuel ->
  hsubs h (subscriptions st) = [] ->
  phases_of h (observed st) = [] ->
  Forall (fun a => allowed h a = true) l ->
  forall ps,
    ps = phases_of h
           (observed (steps fuel l (run (verificationStarted h rk) st))) ->
    count_occ Phase_eq_dec ps codeSent <= 1 /\
    count_occ Phase_eq_dec ps autoVerifyTimeout <= 1 /\
    count_occ Phase_eq_dec ps autoVerified +
      count_occ Phase_eq_dec ps error <= 1 /\
    (forall a p b, ps = (a ++ p :: b)%list -> is_terminal p = true -> b = []).
Proof.
  intros Hw Hf Hs Ho Ha ps ->.
  destruct fuel as [|[|f]]; [lia|lia|].
  assert (Hw1 : wf (run (verificationStarted h rk) st)).
  { apply (preserves_step (S (S f)) (VerificationStarted h rk) st). exact Hw. }
  pose proof (@steps_request_inv h rk f l _ Hw1 Ha
                (@verificationStarted_request_inv h rk st Hs Ho)) as [_ [_ L]].
  destruct (lifecycle_counts L) as [C1 [C2 C3]].
  repeat split; try assumption.
  now apply lifecycle_terminal_last.
Qed.

(* ================================================================== *)
(** ** Resolved operations *)
(* ================================================================== *)

(** X1.  When the native sign-out resolves, [signOut] resolves too,
    [currentUser] is null, the Authoritative-Result Flag is set, no [User]
    is allocated, and there is exactly one emit, on [onUserChanged] with
    null, which every function subscribed there receives once per
    subscription. *)
Theorem signOut_clears_session (fuel : nat) (st : State) :
  wf st -> 1 <= fuel ->
  exists st',
    signOut fuel (Resolved tt) st = (Returned (Resolved tt), st') /\
    currentUser st' = None /\
    _authResult st' = true /\
    next_ref st' = next_ref st /\
    emitted st' =
      (emitted st ++ [(getAppEventName "onUserChanged", VUser None)])%list /\
    invoked st' =
      (invoked st ++
       map (fun id => (id, VUser None))
           (fn_ids (SharedEventEmitter.listeners
                      (getAppEventName "onUserChanged") (subscriptions st))))%list.
Proof.
  intros [Hr _] Hf. destruct fuel as [|f]; [lia|].
  unfold signOut, then_, bind. rewrite _setUser_leaf by exact Hr.
  eexists. split; [reflexivity|].
  destruct (leaf_emit_frame (getAppEventName "onUserChanged")
              (VUser (_user (adopt None st))) (adopt None st))
    as [[S1 S2 _ S4] [E [I _]]].
  unfold currentUser. rewrite S1, S2, S4, E, I.
  repeat split.
Qed.



Lemma setUser_setUserCredential_state (E : string -> Value -> M unit)
      (c : NativeUserCredential) (st : State) :
  snd (_setUser E (Some (nuc_user c)) st) = snd (_setUserCredential E c st).
Proof.
  unfold _setUser, _setUserCredential, new_User. munfold.
  unfold set_user, set_authResult, set_next_ref. simpl.
  match goal with
  | |- context [E ?t ?v ?s] => destruct (E t v s) as [[[]| |] s']
  end; reflexivity.
Qed.

Lemma then_pair_state (fuel : nat) (c : NativeUserCredential) (st : State) :
  run (then_ (Resolved (nuc_user c)) (fun u => _setUser (emit fuel) (Some u))) st =
  run (then_ (Resolved c) (fun x => _setUserCredential (emit fuel) x)) st.
Proof.
  unfold run, then_.
  pose proof (setUser_setUserCredential_state (emit fuel) c st) as H.
  destruct (_setUser (emit fuel) (Some (nuc_user c)) st) as [[x| |] s1];
    destruct (_setUserCredential (emit fuel) c st) as [[y| |] s2];
    simpl in *; exact H.
Qed.

(** X3.  A deprecated operation and its [AndRetrieveData] twin, resolved
    with the same raw user, leave the same state behind, for every state and
    every nesting budget: the twin only adds [additionalUserInfo] to what it
    returns. *)
Theorem deprecated_twin_leaves_same_state
        (fuel : nat) (a b d : string) (c : NativeUserCredential) (st : State) :
  run (signInAnonymously fuel (Resolved (nuc_user c))) st =
    run (signInAnonymouslyAndRetrieveData fuel (Resolved c)) st /\
  run (createUserWithEmailAndPassword fuel a b (Resolved (nuc_user c))) st =
    run (createUserAndRetrieveDataWithEmailAndPassword fuel a b (Resolved c)) st /\
  run (signInWithEmailAndPassword fuel a b (Resolved (nuc_user c))) st =
    run (signInAndRetrieveDataWithEmailAndPassword fuel a b (Resolved c)) st /\
  run (signInWithCustomToken fuel a (Resolved (nuc_user c))) st =
    run (signInAndRetrieveDataWithCustomToken fuel a (Resolved c)) st /\
  run (signInWithCredential fuel a b d (Resolved (nuc_user c))) st =
    run (signInAndRetrieveDataWithCredential fuel a b d (Resolved c)) st.
Proof. repeat split; apply then_pair_state. Qed.

Lemma setUser_sets_flag (fuel : nat) (u : option NativeUser) (st : State) :
  _authResult (snd (_setUser (emit fuel) u st)) = true.
Proof.
  unfold _setUser, new_User. munfold.
  destruct u as [nu|]; cbn -[emit];
    match goal with
    | |- context [emit fuel ?t ?v ?s] =>
        pose proof (proj2 (preserves_emit fuel t v s) eq_refl) as H;
        destruct (emit fuel t v s) as [[[]| |] s']
    end; exact H.
Qed.

Lemma setUserCredential_sets_flag (fuel : nat) (c : NativeUserCredential)
      (st : State) :
  _authResult (snd (_setUserCredential (emit fuel) c st)) = true.
Proof.
  rewrite <- setUser_setUserCredential_state. apply setUser_sets_flag.
Qed.

Lemma then_flag (A B : Type) (a : A) (k : A -> M B) (st : State) :
  _authResult (snd (k a st)) = true ->
  _authResult (run (then_ (Resolved a) k) st) = true.
Proof.
  unfold run, then_. destruct (k a st) as [[b| |] s]; simpl; auto.
Qed.

(** X4.  After any provider operation that changes the session has resolved,
    whatever the state before and whatever listeners did meanwhile, the
    Authoritative-Result Flag is set, so that a listener registered next is
    called at once, exactly once, with the snapshot of that moment. *)
Theorem resolved_operation_enables_replay
        (fuel : nat) (a : Action) (listener : nat) (st : State) :
  resolved_op a = true ->
  _authResult (step fuel a st) = true /\
  invoked (run (onAuthStateChanged listener) (step fuel a st)) =
    (invoked (step fuel a st) ++
     [(listener, VUser (currentUser (step fuel a st)))])%list.
Proof.
  intros Ha.
  assert (F : _authResult (step fuel a st) = true).
  { destruct a; simpl in Ha; try discriminate Ha;
      destruct p; try discriminate Ha; simpl step;
      apply then_flag;
      try apply setUser_sets_flag; try apply setUserCredential_sets_flag.
    unfold bind.
    pose proof (setUser_sets_flag fuel None st) as H.
    destruct (_setUser (emit fuel) None st) as [[x| |] s]; exact H. }
  split; [exact F|].
  destruct (register_spec (getAppEventName "onAuthStateChanged") listener
              (step fuel a st)) as [st' [E [I _]]].
  unfold run at 1, onAuthStateChanged. rewrite E. simpl snd.
  now rewrite I, F.
Qed.

(* ================================================================== *)
(** ** What a notification publishes, and to whom *)
(* ================================================================== *)

Lemma public_of_public (e : NativeEvent) (u : option NativeUser) :
  auth_payload e = Some u ->
  public_of e = "onAuthStateChanged" \/ public_of e = "onIdTokenChanged" \/
  public_of e = "onUserChanged".
Proof. destruct e; simpl; intros H; try discriminate H; auto. Qed.

Lemma native_effect_closure (e : NativeEvent) (u : option NativeUser)
      (st : State) :
  auth_payload e = Some u ->
  native_effect e st (closure_of e) = bridge (public_of e) u st.
Proof.
  destruct e; simpl; intros H; try discriminate H; now injection H as <-.
Qed.

(** X5.  When only the constructor closure listens on its native topic, an
    [auth_state_changed] (or [auth_id_token_changed]) notification sets the
    flag and makes exactly three emits, in this order and with one and the
    same snapshot: the native event itself, [onUserChanged], then
    [onAuthStateChanged] (or [onIdTokenChanged]).  The functions subscribed
    to [onUserChanged] are called first, then those of the other topic, each
    once per subscription; the third public topic gets nothing. *)
Theorem auth_notification_publishes_in_order
        (fuel : nat) (e : NativeEvent) (u : option NativeUser) (st : State) :
  wf st -> 2 <= fuel -> auth_payload e = Some u ->
  SharedEventEmitter.listeners (getAppEventName (native_name e))
                               (subscriptions st) = [closure_of e] ->
  exists st',
    notify fuel e st = (Returned tt, st') /\
    adapts u (currentUser st') /\
    _authResult st' = true /\
    emitted st' =
      (emitted st ++
       [(getAppEventName (native_name e), VAuthState u);
        (getAppEventName "onUserChanged", VUser (currentUser st'));
        (getAppEventName (public_of e), VUser (currentUser st'))])%list /\
    invoked st' =
      (invoked st ++
       map (fun id => (id, VUser (currentUser st')))
           (fn_ids (SharedEventEmitter.listeners
                      (getAppEventName "onUserChanged") (subscriptions st))) ++
       map (fun id => (id, VUser (currentUser st')))
           (fn_ids (SharedEventEmitter.listeners
                      (getAppEventName (public_of e)) (subscriptions st))))%list.
Proof.
  intros [Hr _] Hf He Hl. destruct fuel as [|[|f]]; [lia|lia|].
  rewrite notify_eq by exact Hr. rewrite Hl. simpl fold_left.
  rewrite (native_effect_closure e _ He).
  eexists. split; [reflexivity|].
  set (s0 := log_emit (getAppEventName (native_name e)) (native_payload e) st).
  destruct (bridge_frame (public_of e) u s0) as [B1 [B2 _]].
  unfold currentUser. rewrite B1.
  split; [apply adopt_adapts|]. split; [exact B2|].
  unfold bridge.
  destruct (leaf_emit_frame (getAppEventName "onUserChanged")
              (VUser (_user (adopt u s0))) (adopt u s0)) as [_ [E1 [I1 T1]]].
  destruct (leaf_emit_frame (getAppEventName (public_of e))
              (VUser (_user (adopt u s0)))
              (leaf_emit (getAppEventName "onUserChanged")
                 (VUser (_user (adopt u s0))) (adopt u s0))) as [_ [E2 [I2 _]]].
  rewrite E2, E1, I2, I1, (thinned_fn_listeners _ T1), adopt_subscriptions.
  assert (Ee : emitted (adopt u s0) =
               (emitted st ++ [(getAppEventName (native_name e), VAuthState u)])%list).
  { unfold s0. destruct e; simpl in He |- *; try discriminate He;
      injection He as He; rewrite He; now destruct u. }
  assert (Ei : invoked (adopt u s0) = invoked st) by now destruct u.
  rewrite Ee, Ei. simpl subscriptions.
  split; [now rewrite <- !app_assoc|now rewrite <- app_assoc].
Qed.

Lemma leaf_emit_calls_absent (id : nat) (r0 : SharedEventEmitter.registry)
      (t : string) (v : Value) (st : State) :
  thinned r0 (subscriptions st) ->
  (forall t', ~ In (t', Fn id) r0) ->
  calls_of id (invoked (leaf_emit t v st)) = calls_of id (invoked st) /\
  thinned r0 (subscriptions (leaf_emit t v st)).
Proof.
  intros T Ha. destruct (leaf_emit_frame t v st) as [_ [_ [I T']]].
  split; [|eapply thinned_trans; eauto].
  rewrite I, calls_of_app, calls_of_others; [apply app_nil_r|].
  rewrite fn_ids_In, listeners_In. intros Hin. apply (Ha t).
  apply (thinned_In _ T); [reflexivity|exact Hin].
Qed.

Lemma native_effect_calls_absent (id : nat) (r0 : SharedEventEmitter.registry)
      (e : NativeEvent) (st : State) (l : Listener) :
  thinned r0 (subscriptions st) ->
  (forall t', ~ In (t', Fn id) r0) ->
  l <> Fn id ->
  calls_of id (invoked (native_effect e st l)) = calls_of id (invoked st).
Proof.
  intros T Ha Hl.
  assert (B : forall public u,
             calls_of id (invoked (bridge public u st)) = calls_of id (invoked st)).
  { intros public u. unfold bridge.
    assert (T0 : thinned r0 (subscriptions (adopt u st)))
      by now rewrite adopt_subscriptions.
    destruct (@leaf_emit_calls_absent id r0 (getAppEventName "onUserChanged")
                (VUser (_user (adopt u st))) _ T0 Ha) as [C1 T1].
    destruct (@leaf_emit_calls_absent id r0 (getAppEventName public)
                (VUser (_user (adopt u st))) _ T1 Ha) as [C2 _].
    rewrite C2, C1. now destruct u. }
  destruct l, e; simpl native_effect; try reflexivity; try apply B.
  - now apply (@leaf_emit_calls_absent id r0 _ _ st T Ha).
  - simpl. rewrite calls_of_app. unfold calls_of at 2. simpl.
    destruct (Nat.eqb_spec id0 id) as [E|N]; [congruence|apply app_nil_r].
  - simpl. rewrite calls_of_app. unfold calls_of at 2. simpl.
    destruct (Nat.eqb_spec id0 id) as [E|N]; [congruence|apply app_nil_r].
  - simpl. rewrite calls_of_app. unfold calls_of at 2. simpl.
    destruct (Nat.eqb_spec id0 id) as [E|N]; [congruence|apply app_nil_r].
Qed.

Lemma native_fold_calls_absent (id : nat) (r0 : SharedEventEmitter.registry)
      (e : NativeEvent) (ls : list Listener) (st : State) :
  thinned r0 (subscriptions st) ->
  (forall t', ~ In (t', Fn id) r0) ->
  ~ In (Fn id) ls ->
  calls_of id (invoked (fold_left (native_effect e) ls st)) =
  calls_of id (invoked st).
Proof.
  intros T Ha. revert st T. induction ls as [|l ls IH]; intros st T Hl.
  - reflexivity.
  - simpl fold_left. rewrite IH.
    + apply (@native_effect_calls_absent id r0 e st l T Ha).
      intros E. apply Hl. now left.
    + eapply thinned_trans; [exact T|apply native_effect_thinned].
    + intros Hin. apply Hl. now right.
Qed.

(** X6.  A function that holds no subscription on the emitter (none yet, or
    none any more after its unsubscribe function was called) is called by no
    native notification, however many are delivered and of whatever kind. *)
Theorem unsubscribed_function_is_never_called
        (fuel : nat) (id : nat) (es : list NativeEvent) (st : State) :
  wf st -> 2 <= fuel ->
  (forall t, ~ In (t, Fn id) (subscriptions st)) ->
  calls_of id (invoked (run (notify_all fuel es) st)) = calls_of id (invoked st).
Proof.
  intros Hw Hf Ha. destruct fuel as [|[|f]]; [lia|lia|].
  revert st Hw Ha. induction es as [|e es IH]; intros st Hw Ha; [reflexivity|].
  assert (R : run (notify_all (S (S f)) (e :: es)) st =
              run (notify_all (S (S f)) es) (run (notify (S (S f)) e) st)).
  { unfold run at 1 2. now rewrite notify_all_cons by apply Hw. }
  rewrite R.
  assert (T : thinned (subscriptions st)
                      (subscriptions (run (notify (S (S f)) e) st))).
  { unfold run. rewrite notify_eq by apply Hw. simpl snd.
    apply (native_fold_thinned e _
             (log_emit (getAppEventName (native_name e)) (native_payload e) st)). }
  rewrite IH.
  - unfold run. rewrite notify_eq by apply Hw. simpl snd.
    rewrite native_fold_calls_absent with (r0 := subscriptions st).
    + reflexivity.
    + apply thinned_refl.
    + exact Ha.
    + rewrite listeners_In. apply Ha.
  - now apply notify_wf.
  - intros t Hin. apply (Ha t). eapply thinned_incl; eauto.
Qed.

(* ================================================================== *)
(** ** Registering and unsubscribing *)
(* ================================================================== *)

Lemma register_undone (t : string) (l : nat) (st : State) :
  ~ In (t, Fn l) (subscriptions st) -> undone (register t) l st.
Proof.
  intros Ha. destruct (register_spec t l st) as [st1 [E [_ [_ [_ [_ Es]]]]]].
  exists (mkUnsubscribe t (Fn l)), st1. split; [exact E|].
  assert (Hs : SharedEventEmitter.removeListener t (Fn l)
                 (subscriptions st ++ [(t, Fn l)]) = subscriptions st).
  { unfold SharedEventEmitter.removeListener.
    rewrite filter_app. simpl.
    rewrite (proj2 (same_iff t (Fn l) (t, Fn l)) eq_refl). simpl.
    rewrite app_nil_r. now apply removeListener_absent. }
  split.
  - change (subscriptions (run (unsubscribe (mkUnsubscribe t (Fn l))) st1))
      with (SharedEventEmitter.removeListener t (Fn l) (subscriptions st1)).
    now rewrite Es.
  - intros F.
    assert (E1 : register t l st =
                 (Returned (mkUnsubscribe t (Fn l)),
                  set_subscriptions (subscriptions st ++ [(t, Fn l)]) st)).
    { unfold register. munfold. simpl. now rewrite F. }
    rewrite E in E1. injection E1 as ->.
    change (run (unsubscribe (mkUnsubscribe t (Fn l)))
                (set_subscriptions (subscriptions st ++ [(t, Fn l)]) st))
      with (set_subscriptions
              (SharedEventEmitter.removeListener t (Fn l)
                 (subscriptions st ++ [(t, Fn l)]))
              (set_subscriptions (subscriptions st ++ [(t, Fn l)]) st)).
    rewrite Hs. now destruct st.
Qed.

(** X7.  Registering a function that is not yet subscribed to the topic and
    then calling the unsubscribe function it got back restores the
    subscriptions exactly as they were, order included; when no
    authoritative result has arrived yet, the whole state is as before. *)
Theorem unsubscribe_undoes_registration (listener : nat) (st : State) :
  (forall t, ~ In (t, Fn listener) (subscriptions st)) ->
  undone onAuthStateChanged listener st /\
  undone onIdTokenChanged listener st /\
  undone onUserChanged listener st.
Proof. intros Ha. repeat split; apply register_undone, Ha. Qed.

(* ================================================================== *)
(** ** The language code *)
(* ================================================================== *)

Lemma keeps_language_ret (A : Type) (a : A) : keeps_language (ret a).
Proof. now intros st. Qed.

Lemma keeps_language_throw (A : Type) (e : Error) : keeps_language (@throw A e).
Proof. now intros st. Qed.

Lemma keeps_language_gets (A : Type) (f : State -> A) : keeps_language (gets f).
Proof. now intros st. Qed.

Lemma keeps_language_modify (f : State -> State) :
  (forall st, _languageCode (f st) = _languageCode st) ->
  keeps_language (modify f).
Proof. intros H st. apply H. Qed.

Lemma keeps_language_bind (A B : Type) (m : M A) (k : A -> M B) :
  keeps_language m -> (forall a, keeps_language (k a)) ->
  keeps_language (bind m k).
Proof.
  intros Hm Hk st. unfold bind. pose proof (Hm st) as H.
  destruct (m st) as [[a| |] st1]; simpl in *; try exact H.
  now rewrite Hk.
Qed.

Lemma keeps_language_then (A B : Type) (p : Settled A) (k : A -> M B) :
  (forall a, keeps_language (k a)) -> keeps_language (then_ p k).
Proof.
  intros Hk st. destruct p as [a|e]; simpl; [|reflexivity].
  pose proof (Hk a st) as H.
  destruct (k a st) as [[b| |] st1]; simpl in *; exact H.
Qed.

Lemma keeps_language_verification_handler (h : nat) (rk : string) (p : Phase)
      (v : Value) :
  keeps_language (verification_handler h rk p v).
Proof. intros st. now destruct p. Qed.

Section EmitKeepsLanguage.

Variable E : string -> Value -> M unit.
Hypothesis E_keeps : forall t v, keeps_language (E t v).

Lemma keeps_language_setUser (u : option NativeUser) :
  keeps_language (_setUser E u).
Proof.
  unfold _setUser.
  apply keeps_language_bind; [now apply keeps_language_modify|intros _].
  apply keeps_language_bind.
  { destruct u; [|apply keeps_language_ret].
    apply keeps_language_bind; [now intros st|intros x; apply keeps_language_ret]. }
  intros x. apply keeps_language_bind; [now apply keeps_language_modify|intros _].
  apply keeps_language_bind; [apply keeps_language_gets|intros cur].
  apply keeps_language_bind; [apply E_keeps|intros _; apply keeps_language_gets].
Qed.

Lemma keeps_language_setUserCredential (c : NativeUserCredential) :
  keeps_language (_setUserCredential E c).
Proof.
  unfold _setUserCredential.
  apply keeps_language_bind; [now intros st|intros x].
  apply keeps_language_bind; [now apply keeps_language_modify|intros _].
  apply keeps_language_bind; [now apply keeps_language_modify|intros _].
  apply keeps_language_bind; [apply keeps_language_gets|intros cur].
  apply keeps_language_bind; [apply E_keeps|intros _; apply keeps_language_ret].
Qed.

Lemma keeps_language_invoke (l : Listener) (v : Value) :
  keeps_language (invoke E l v).
Proof.
  destruct l; simpl.
  - destruct v; try apply keeps_language_throw.
    apply keeps_language_bind; [apply keeps_language_setUser|intros _].
    apply keeps_language_bind; [apply keeps_language_gets|intros cur; apply E_keeps].
  - destruct v; try apply keeps_language_throw. apply E_keeps.
  - destruct v; try apply keeps_language_throw.
    apply keeps_language_bind; [apply keeps_language_setUser|intros _].
    apply keeps_language_bind; [apply keeps_language_gets|intros cur; apply E_keeps].
  - apply keeps_language_verification_handler.
  - now apply keeps_language_modify.
Qed.

Lemma keeps_language_deliver (ls : list Listener) (v : Value) :
  keeps_language (deliver E ls v).
Proof.
  induction ls as [|l ls IH]; simpl; [apply keeps_language_ret|].
  apply keeps_language_bind; [apply keeps_language_invoke|intros _; exact IH].
Qed.

End EmitKeepsLanguage.

Lemma keeps_language_emit (fuel : nat) (t : string) (v : Value) :
  keeps_language (emit fuel t v).
Proof.
  revert t v. induction fuel as [|f IH]; intros t v; [now intros st|].
  simpl emit.
  apply keeps_language_bind; [now apply keeps_language_modify|intros _].
  apply keeps_language_bind; [apply keeps_language_gets|intros ls].
  now apply keeps_language_deliver.
Qed.

Lemma keeps_language_step (fuel : nat) (a : Action) (st : State) :
  sets_language a = false ->
  _languageCode (step fuel a st) = _languageCode st.
Proof.
  intros Ha. destruct a; simpl in Ha; try discriminate Ha; simpl step;
    unfold run; try reflexivity;
    try apply keeps_language_emit;
    try (apply keeps_language_then; intros u;
         first [ apply keeps_language_setUser, keeps_language_emit
               | apply keeps_language_setUserCredential, keeps_language_emit ]).
  - unfold onAuthStateChanged, register. munfold. simpl.
    now destruct (_authResult st).
  - unfold onIdTokenChanged, register. munfold. simpl.
    now destruct (_authResult st).
  - unfold onUserChanged, register. munfold. simpl.
    now destruct (_authResult st).
  - apply keeps_language_then. intros _.
    apply keeps_language_bind; [|intros _; apply keeps_language_ret].
    apply keeps_language_setUser, keeps_language_emit.
Qed.

(** X8.  The getter of [languageCode] returns the code that was set last:
    no notification, emit, registration, removal or provider operation in
    between changes it, whether it returns, throws or exhausts the nesting
    budget; and reading it changes nothing. *)
Theorem languageCode_is_last_set
        (fuel : nat) (code : string) (l : list Action) (st : State) :
  Forall (fun a => sets_language a = false) l ->
  languageCode_get (steps fuel l (run (languageCode_set code) st)) =
  (Returned code, steps fuel l (run (languageCode_set code) st)).
Proof.
  intros Hl. unfold languageCode_get, gets. f_equal. f_equal.
  assert (G : forall s, _languageCode (steps fuel l s) = _languageCode s).
  { induction Hl as [|a l Ha _ IH]; intros s; [reflexivity|].
    simpl. rewrite IH. now apply keeps_language_step. }
  now rewrite G.
Qed.

(* ================================================================== *)
(** ** Invariants of the reachable states *)
(* ================================================================== *)

(** X9.  In every state that the module reaches from its constructor,
    whatever is done through it and whatever is emitted, the three
    constructor closures are still subscribed to their native topics and
    every handler of the module sits on its own topic: nothing the
    application can call unsubscribes the bridge. *)
Theorem bridge_stays_installed
        (fuel : nat) (lang : string) (shared : SharedEventEmitter.registry)
        (l : list Action) :
  registry_ok shared ->
  installed (subscriptions (steps fuel l (constructor lang shared))) /\
  registry_ok (subscriptions (steps fuel l (constructor lang shared))).
Proof.
  intros Hr.
  destruct (steps_wf fuel l (constructor_wf lang Hr)) as [H1 H2].
  now split.
Qed.

Lemma fresh_same (st st' : State) :
  _user st' = _user st -> next_ref st' = next_ref st ->
  fresh st -> fresh st'.
Proof. unfold fresh. intros -> ->. auto. Qed.

Lemma adopt_fresh (u : option NativeUser) (st : State) :
  fresh st -> fresh (adopt u st) /\ next_ref st <= next_ref (adopt u st).
Proof.
  intros H. destruct u as [nu|]; simpl; split; try lia.
  - intros x E. injection E as <-. simpl. lia.
  - intros x E. discriminate E.
Qed.

Lemma leaf_emit_fresh (t : string) (v : Value) (st : State) :
  fresh st -> fresh (leaf_emit t v st).
Proof.
  destruct (leaf_emit_frame t v st) as [[S1 _ _ S4] _].
  now apply fresh_same.
Qed.

Lemma bridge_session (public : string) (u : option NativeUser) (st : State) :
  same_session (adopt u st) (bridge public u st).
Proof.
  unfold bridge. eapply same_session_trans; apply leaf_emit_frame.
Qed.

Lemma bridge_fresh (public : string) (u : option NativeUser) (st : State) :
  fresh st ->
  fresh (bridge public u st) /\ next_ref st <= next_ref (bridge public u st).
Proof.
  intros H. destruct (adopt_fresh u H) as [F N].
  destruct (bridge_session public u st) as [S1 _ _ S4]. split.
  - now apply fresh_same with (st := adopt u st).
  - now rewrite S4.
Qed.

Lemma native_effect_fresh (e : NativeEvent) (st : State) (l : Listener) :
  fresh st ->
  fresh (native_effect e st l) /\ next_ref st <= next_ref (native_effect e st l).
Proof.
  intros H. destruct l, e; simpl native_effect;
    first [ now apply bridge_fresh
          | split; [exact H|simpl; lia]
          | idtac ].
  destruct (leaf_emit_frame (phone_event_key requestKey type)
              (VPhoneState state) st) as [[S1 _ _ S4] _].
  split; [now apply leaf_emit_fresh|now rewrite S4].
Qed.

Lemma native_fold_fresh (e : NativeEvent) (nu : NativeUser) (n0 : nat)
      (ls : list Listener) (st : State) :
  auth_payload e = Some (Some nu) ->
  Forall (fun l => compatible e l = true) ls ->
  fresh st -> n0 <= next_ref st ->
  fresh (fold_left (native_effect e) ls st) /\
  (In (closure_of e) ls \/
   (exists u, _user st = Some u /\ native u = nu /\ n0 <= ref u) ->
   exists u, _user (fold_left (native_effect e) ls st) = Some u /\
             native u = nu /\ n0 <= ref u).
Proof.
  intros He. revert st. induction ls as [|l ls IH]; intros st Hc Hf Hn.
  - simpl. split; [exact Hf|]. now intros [[]|H].
  - inversion Hc as [|? ? Hl Hls]; subst. simpl fold_left.
    destruct (native_effect_fresh e l Hf) as [F1 N1].
    destruct (IH (native_effect e st l) Hls F1 ltac:(lia)) as [F2 Q2].
    split; [exact F2|]. intros Hd. apply Q2.
    destruct (Listener_eq_dec l (closure_of e)) as [->|Hne].
    + right. rewrite (native_effect_closure e st He).
      rewrite (proj1 (bridge_frame _ _ _)). simpl.
      eexists. split; [reflexivity|]. simpl. split; [reflexivity|exact Hn].
    + destruct Hd as [[Hd|Hd]|Hd]; [congruence|now left|right].
      destruct l, e; simpl in Hl, He, Hne; try discriminate; try congruence;
        exact Hd.
Qed.

Lemma then_setUser_fresh (f : nat) (A : Type) (p : Settled A)
      (g : A -> option NativeUser) (st : State) :
  registry_ok (subscriptions st) -> fresh st ->
  fresh (run (then_ p (fun a => _setUser (emit (S f)) (g a))) st).
Proof.
  intros Hr H. destruct p as [a|e]; [|exact H].
  unfold run, then_. rewrite _setUser_leaf by exact Hr. cbn [snd].
  apply leaf_emit_fresh. exact (proj1 (@adopt_fresh (g a) st H)).
Qed.

Lemma then_setUserCredential_fresh (f : nat) (p : Settled NativeUserCredential)
      (st : State) :
  registry_ok (subscriptions st) -> fresh st ->
  fresh (run (then_ p (fun c => _setUserCredential (emit (S f)) c)) st).
Proof.
  intros Hr H. destruct p as [c|e]; [|exact H].
  rewrite <- then_pair_state.
  now apply then_setUser_fresh with (g := fun u : NativeUser => Some u)
                                    (p := Resolved (nuc_user c)).
Qed.

Lemma step_fresh (f : nat) (a : Action) (st : State) :
  wf st -> is_emit a = false -> fresh st -> fresh (step (S (S f)) a st).
Proof.
  intros [Hr _] Ha H. destruct a; simpl in Ha; try discriminate Ha;
    simpl step;
    try (now apply then_setUser_fresh with (g := fun u : NativeUser => Some u));
    try (now apply then_setUserCredential_fresh);
    try exact H.
  - unfold run. rewrite notify_eq by exact Hr. simpl snd.
    match goal with
    | |- fresh (fold_left _ ?ls ?s0) =>
        assert (H0 : fresh s0) by exact H; revert H0; generalize s0;
        generalize ls
    end.
    intros ls. induction ls as [|x ls IH]; intros s0 H0; [exact H0|].
    simpl. apply IH. now apply native_effect_fresh.
  - destruct (register_spec (getAppEventName "onAuthStateChanged") listener st)
      as [st' [E [_ [_ [Cu _]]]]].
    unfold run, onAuthStateChanged. rewrite E. simpl snd. revert E.
    unfold register. munfold. simpl.
    destruct (_authResult st); intros E; injection E as <-; exact H.
  - destruct (register_spec (getAppEventName "onIdTokenChanged") listener st)
      as [st' [E [_ [_ [Cu _]]]]].
    unfold run, onIdTokenChanged. rewrite E. simpl snd. revert E.
    unfold register. munfold. simpl.
    destruct (_authResult st); intros E; injection E as <-; exact H.
  - destruct (register_spec (getAppEventName "onUserChanged") listener st)
      as [st' [E [_ [_ [Cu _]]]]].
    unfold run, onUserChanged. rewrite E. simpl snd. revert E.
    unfold register. munfold. simpl.
    destruct (_authResult st); intros E; injection E as <-; exact H.
  - apply then_setUser_fresh with (f := S f) (g := fun _ : unit => None)
                                  (p := p) in H; [|exact Hr].
    destruct p as [x|e]; [|exact H].
    revert H. unfold run, signOut, then_, bind.
    rewrite _setUser_leaf by exact Hr. cbn -[leaf_emit]. auto.
Qed.

Lemma steps_fresh (f : nat) (l : list Action) (st : State) :
  wf st -> Forall (fun a => is_emit a = false) l ->
  fresh st -> fresh (steps (S (S f)) l st).
Proof.
  revert st. induction l as [|a l IH]; intros st Hw Ha H; [exact H|].
  inversion Ha as [|? ? Ha1 Ha2]; subst. simpl. apply IH.
  - now apply preserves_step.
  - exact Ha2.
  - now apply step_fresh.
Qed.

(** X10.  After any history of notifications, registrations, removals and
    operations since construction, a further [auth_state_changed] or
    [auth_id_token_changed] notification that carries a user makes
    [currentUser] a newly built [User] around that payload: never the object
    that was [currentUser] before, even for the same raw user. *)
Theorem notification_builds_new_snapshot
        (fuel : nat) (lang : string) (shared : SharedEventEmitter.registry)
        (l : list Action) (e : NativeEvent) (nu : NativeUser) :
  registry_ok shared -> 2 <= fuel ->
  Forall (fun a => is_emit a = false) l ->
  auth_payload e = Some (Some nu) ->
  exists u,
    currentUser (run (notify fuel e) (steps fuel l (constructor lang shared))) =
      Some u /\
    native u = nu /\
    currentUser (run (notify fuel e) (steps fuel l (constructor lang shared))) <>
    currentUser (steps fuel l (constructor lang shared)).
Proof.
  intros Hs Hf Hl He. destruct fuel as [|[|f]]; [lia|lia|].
  set (st := steps (S (S f)) l (constructor lang shared)).
  assert (Hw : wf st) by (apply steps_wf, constructor_wf, Hs).
  assert (Hfr : fresh st).
  { apply steps_fresh; [now apply constructor_wf|exact Hl|].
    intros u E. discriminate E. }
  destruct Hw as [Hr [I1 [I2 I3]]].
  unfold run. rewrite notify_eq by exact Hr. simpl snd.
  destruct (@native_fold_fresh e nu (next_ref st)
              (SharedEventEmitter.listeners (getAppEventName (native_name e))
                                            (subscriptions st))
              (log_emit (getAppEventName (native_name e))
                        (native_payload e) st)
              He (@listeners_compatible e _ Hr) Hfr (le_n _)) as [_ Q].
  destruct Q as [u [E [N R]]].
  { left. apply listeners_In. destruct e; simpl in *; try discriminate;
      assumption. }
  exists u. unfold currentUser. split; [exact E|]. split; [exact N|].
  rewrite E. intros X. symmetry in X. apply Hfr in X. lia.
Qed.

Lemma announced_same (st st' : State) :
  _authResult st' = _authResult st -> _user st' = _user st ->
  emitted st' = emitted st ->
  announced st -> announced st'.
Proof. unfold announced. intros -> -> ->. auto. Qed.

Lemma emits_on_single (t t' : string) (v : Value) :
  emits_on t [(t', v)] = if string_dec t' t then [v] else [].
Proof. unfold emits_on. simpl. now destruct (string_dec t' t). Qed.

Lemma leaf_emit_announces (v : option User) (st : State) :
  _authResult st = true -> _user st = v ->
  announced (leaf_emit (getAppEventName "onUserChanged") (VUser v) st).
Proof.
  intros F U.
  destruct (leaf_emit_frame (getAppEventName "onUserChanged") (VUser v) st)
    as [[S1 S2 _ _] [E _]].
  unfold announced. rewrite S2, F, S1, U, E, emits_on_app, emits_on_single.
  destruct (string_dec _ _); [|contradiction]. eexists. reflexivity.
Qed.

Lemma leaf_emit_announced_other (t : string) (v : Value) (st : State) :
  t <> getAppEventName "onUserChanged" ->
  announced st -> announced (leaf_emit t v st).
Proof.
  intros N H.
  destruct (leaf_emit_frame t v st) as [[S1 S2 _ _] [E _]].
  unfold announced in *. rewrite S2, S1, E, emits_on_app, emits_on_single.
  destruct (string_dec _ _); [contradiction|]. now rewrite app_nil_r.
Qed.

Lemma bridge_announced (public : string) (u : option NativeUser) (st : State) :
  public = "onAuthStateChanged" \/ public = "onIdTokenChanged" ->
  announced (bridge public u st).
Proof.
  intros Hp. unfold bridge. apply leaf_emit_announced_other.
  - intros E. apply getAppEventName_inj in E.
    destruct Hp as [Hp|Hp]; subst public; discriminate E.
  - apply leaf_emit_announces; [apply adopt_authResult|reflexivity].
Qed.

Lemma native_effect_announced (e : NativeEvent) (st : State) (l : Listener) :
  announced st -> announced (native_effect e st l).
Proof.
  intros H. destruct l, e; simpl native_effect; try exact H;
    try (apply bridge_announced; auto).
  apply leaf_emit_announced_other; [apply phone_event_key_not_app|exact H].
Qed.

Lemma then_setUser_announced (f : nat) (A : Type) (p : Settled A)
      (g : A -> option NativeUser) (st : State) :
  registry_ok (subscriptions st) -> announced st ->
  announced (run (then_ p (fun a => _setUser (emit (S f)) (g a))) st).
Proof.
  intros Hr H. destruct p as [a|e]; [|exact H].
  unfold run, then_. rewrite _setUser_leaf by exact Hr. cbn [snd].
  apply leaf_emit_announces; [apply adopt_authResult|reflexivity].
Qed.

Lemma then_setUserCredential_announced (f : nat)
      (p : Settled NativeUserCredential) (st : State) :
  registry_ok (subscriptions st) -> announced st ->
  announced (run (then_ p (fun c => _setUserCredential (emit (S f)) c)) st).
Proof.
  intros Hr H. destruct p as [c|e]; [|exact H].
  rewrite <- then_pair_state.
  now apply then_setUser_announced with (g := fun u : NativeUser => Some u)
                                        (p := Resolved (nuc_user c)).
Qed.

Lemma register_announced (t : string) (l : nat) (st : State) :
  announced st -> announced (run (register t l) st).
Proof.
  destruct (register_spec t l st) as [st' [E [_ [Em [Cu [F _]]]]]].
  unfold run. rewrite E. simpl snd. now apply announced_same.
Qed.

Lemma step_announced (f : nat) (a : Action) (st : State) :
  wf st -> is_emit a = false -> announced st ->
  announced (step (S (S f)) a st).
Proof.
  intros [Hr _] Ha H. destruct a; simpl in Ha; try discriminate Ha;
    simpl step;
    try (now apply register_announced);
    try (now apply then_setUser_announced
           with (g := fun u : NativeUser => Some u));
    try (now apply then_setUserCredential_announced);
    try exact H.
  - unfold run. rewrite notify_eq by exact Hr. simpl snd.
    match goal with
    | |- announced (fold_left _ ?ls ?s0) =>
        assert (H0 : announced s0);
        [|revert H0; generalize s0; generalize ls]
    end.
    { unfold announced in *. simpl. destruct (_authResult st); [|exact H].
      destruct H as [b Hb]. exists b.
      rewrite emits_on_app, emits_on_single.
      destruct (string_dec _ _) as [D|D]; [|now rewrite app_nil_r].
      apply getAppEventName_inj in D. destruct e; discriminate D. }
    intros ls. induction ls as [|x ls IH]; intros s0 H0; [exact H0|].
    simpl. apply IH. now apply native_effect_announced.
  - apply then_setUser_announced with (f := S f) (g := fun _ : unit => None)
                                      (p := p) in H; [|exact Hr].
    destruct p as [x|e]; [|exact H].
    revert H. unfold run, signOut, then_, bind.
    rewrite _setUser_leaf by exact Hr. cbn -[leaf_emit]. auto.
Qed.

(** X11.  In every state that the module reaches from its constructor
    through notifications, registrations, removals and operations,
    [currentUser] is null as long as no authoritative result has arrived,
    and afterwards the most recent emit on [onUserChanged] carried exactly
    the current snapshot: the snapshot never changes without that topic
    being told. *)
Theorem every_change_is_announced
        (fuel : nat) (lang : string) (shared : SharedEventEmitter.registry)
        (l : list Action) :
  registry_ok shared -> 2 <= fuel ->
  Forall (fun a => is_emit a = false) l ->
  announced (steps fuel l (constructor lang shared)).
Proof.
  intros Hs Hf Hl. destruct fuel as [|[|f]]; [lia|lia|].
  assert (G : forall st, wf st -> announced st ->
                         announced (steps (S (S f)) l st)).
  { induction Hl as [|a l Ha _ IH]; intros st Hw H; [exact H|].
    simpl. apply IH; [now apply preserves_step|now apply step_announced]. }
  apply G; [now apply constructor_wf|reflexivity].
Qed.



End AuthModule.

(* ================================================================== *)
(** ** The default application: concrete runs *)
(* ================================================================== *)

Lemma default_name_inj (a b : string) : default_name a = default_name b -> a = b.
Proof. unfold default_name. apply append_cancel_l. Qed.

Lemma default_name_not_phone (a : string) :
  prefix "phone:auth:" (default_name a) = false.
Proof. reflexivity. Qed.

Lemma default_wf : wf default_name (constructor default_name "en" []).
Proof.
  split; [repeat constructor|]. repeat split; simpl; auto.
Qed.

Lemma currentUser_follows_latest_notification_witness :
  wf default_name (constructor default_name "en" []) /\
  2 <= 2 /\
  auth_payload (auth_state_changed (Some (mkNativeUser "u2" []))) =
    Some (Some (mkNativeUser "u2" [])) /\
  exists st',
    notify_all default_name 2
      ([auth_state_changed (Some (mkNativeUser "u1" []));
        phone_auth_state_changed "rk1" "codeSent" [];
        auth_id_token_changed None]
         ++ [auth_state_changed (Some (mkNativeUser "u2" []))])
      (constructor default_name "en" []) = (Returned tt, st') /\
    adapts (Some (mkNativeUser "u2" [])) (currentUser st').
Proof.
  split; [exact default_wf|]. split; [lia|]. split; [reflexivity|].
  apply (currentUser_follows_latest_notification
           default_name_inj default_name_not_phone).
  - exact default_wf.
  - lia.
  - reflexivity.
Defined.

Lemma phone_event_demultiplexed_witness :
  let st := run (addListener (phone_event_key "rk2" "codeSent") (Fn 7))
                (constructor default_name "en" []) in
  exists st' k,
    notify default_name 2 (phone_auth_state_changed "rk1" "codeSent" []) st =
      (Returned tt, st') /\
    1 <= k /\
    phone_event_key "rk1" "codeSent" = "phone:auth:rk1:codeSent" /\
    emitted st' =
      (emitted st ++
       (default_name "phone_auth_state_changed", VPhoneEvent "rk1" "codeSent" [])
       :: repeat (phone_event_key "rk1" "codeSent", VPhoneState []) k)%list /\
    (forall j, In (phone_event_key "rk1" "codeSent", Fn j) (subscriptions st) ->
               In (j, VPhoneState []) (invoked st')) /\
    calls_of 7 (invoked st') = calls_of 7 (invoked st).
Proof.
  intros st.
  assert (Hw : wf default_name st).
  { split; [repeat constructor|]. repeat split; simpl; auto. }
  assert (Hf : 2 <= 2) by lia.
  assert (Hd : "rk1" <> "rk2") by discriminate.
  assert (Hc : colon_free "codeSent") by apply (phase_name_colon_free codeSent).
  assert (Hs : forall t, In (t, Fn 7) (subscriptions st) ->
                 exists p, colon_free p /\ t = phone_event_key "rk2" p).
  { simpl. intros t [H|[H|[H|[H|[]]]]]; try discriminate H.
    injection H as <-. exists "codeSent". split; [exact Hc|reflexivity]. }
  exact (@phone_event_demultiplexed default_name default_name_inj
           default_name_not_phone 2 "rk1" "rk2" "codeSent" [] 7 st
           Hw Hf Hd Hc Hs).
Defined.

(** Against C3 as the specification words it, twice: the prefix of the private topic is
    ["phone:auth:"], not ["phone-auth:"], so a function subscribed to the
    topic of the specification is never reached; and a type that contains
    [":"] lands on a private topic of another request key. *)
Lemma phone_topic_counterexample :
  (let st := run (addListener (spec_phone_topic "rk1" "codeSent") (Fn 1))
                 (constructor default_name "en" []) in
   let st' := run (notify default_name 2
                     (phone_auth_state_changed "rk1" "codeSent" [])) st in
   emits_on (spec_phone_topic "rk1" "codeSent") (emitted st') = [] /\
   calls_of 1 (invoked st') = [] /\
   emits_on "phone:auth:rk1:codeSent" (emitted st') = [VPhoneState []]) /\
  (let st := run (addListener (phone_event_key "a:b" "codeSent") (Fn 2))
                 (constructor default_name "en" []) in
   let st' := run (notify default_name 2
                     (phone_auth_state_changed "a" "b:codeSent" [])) st in
   "a" <> "a:b" /\
   (forall t, In (t, Fn 2) (subscriptions st) ->
              t = phone_event_key "a:b" "codeSent") /\
   calls_of 2 (invoked st') = [VPhoneState []]).
Proof.
  split.
  - vm_compute. repeat split.
  - split; [discriminate|]. split.
    + simpl. intros t [H|[H|[H|[H|[]]]]]; try discriminate H.
      now injection H as <-.
    + vm_compute. reflexivity.
Qed.

Lemma authResult_is_monotone_witness :
  let st := run (notify default_name 2 (auth_state_changed None))
                (constructor default_name "en" []) in
  _authResult st = true /\
  _authResult (constructor default_name "en" []) = false /\
  _authResult
    (steps default_name default_message 2
       [SignOut (Rejected (NativeError "auth/network-request-failed" "offline"));
        Notify (phone_auth_state_changed "rk1" "error" []);
        GetRedirectResult;
        OnUserChanged 3;
        SignOut (Resolved tt)] st) = true.
Proof.
  intros st.
  assert (H : _authResult st = true) by reflexivity.
  split; [exact H|].
  split; [reflexivity|].
  exact (proj2 (@authResult_is_monotone default_name default_message "en" []
                  2 _ st) H).
Defined.

Lemma createUserAndRetrieveData_publishes_once_witness :
  let st := run (onUserChanged default_name 7) (constructor default_name "en" []) in
  exists r st',
    createUserAndRetrieveDataWithEmailAndPassword default_name 1 "a@b.com" "pw"
      (Resolved (mkNativeUserCredential (mkNativeUser "u1" []) None)) st =
      (Returned (Resolved r), st') /\
    User_uid (user r) = "u1" /\
    additionalUserInfo r = None /\
    currentUser st' = Some (user r) /\
    _authResult st' = true /\
    emitted st' =
      (emitted st ++ [(default_name "onUserChanged", VUser (Some (user r)))])%list /\
    SharedEventEmitter.listeners (default_name "onUserChanged")
                                 (subscriptions st) =
      map Fn (fn_ids (SharedEventEmitter.listeners
                        (default_name "onUserChanged") (subscriptions st))) /\
    invoked st' =
      (invoked st ++
       map (fun id => (id, VUser (Some (user r))))
           (fn_ids (SharedEventEmitter.listeners
                      (default_name "onUserChanged") (subscriptions st))))%list.
Proof.
  apply (createUserAndRetrieveData_publishes_once
           default_name_inj default_name_not_phone).
  - split; [repeat constructor|]. repeat split; simpl; auto.
  - lia.
Defined.

Lemma unsubscribe_is_idempotent_witness :
  let u := mkUnsubscribe (default_name "onUserChanged") (Fn 7) in
  let st := constructor default_name "en" [] in
  ~ In (un_topic u, un_listener u) (subscriptions st) /\
  run (unsubscribe u) st = st.
Proof.
  assert (H : ~ In (default_name "onUserChanged", Fn 7)
                (subscriptions (constructor default_name "en" []))).
  { simpl. intros [H|[H|[H|[]]]]; discriminate H. }
  split; [exact H|].
  apply (proj1 (proj2 (proj2
           (unsubscribe_is_idempotent
              (mkUnsubscribe (default_name "onUserChanged") (Fn 7))
              (constructor default_name "en" []))))).
  exact H.
Defined.

(** Against C9 as the specification words it: the unsubscribe function of a first
    registration, called a second time after the same function has been
    registered again on the same topic, removes that second registration. *)
Lemma unsubscribe_counterexample :
  let s0 := constructor default_name "en" [] in
  let topic := default_name "onAuthStateChanged" in
  let u1 := mkUnsubscribe topic (Fn 1) in
  let s1 := run (onAuthStateChanged default_name 1) s0 in
  let s2 := run (unsubscribe u1) s1 in
  let s3 := run (onAuthStateChanged default_name 1) s2 in
  let s4 := run (unsubscribe u1) s3 in
  fst (onAuthStateChanged default_name 1 s0) = Returned u1 /\
  SharedEventEmitter.listeners topic (subscriptions s2) = [] /\
  SharedEventEmitter.listeners topic (subscriptions s3) = [Fn 1] /\
  SharedEventEmitter.listeners topic (subscriptions s4) = [] /\
  s4 <> s3.
Proof.
  vm_compute. repeat split. discriminate.
Qed.

Lemma phone_event_leaves_session_untouched_witness :
  let st := run (notify default_name 2 (auth_state_changed (Some (mkNativeUser "u1" []))))
                (constructor default_name "en" []) in
  exists st',
    notify default_name 2 (phone_auth_state_changed "rk1" "autoVerified" []) st =
      (Returned tt, st') /\
    currentUser st' = currentUser st /\
    _authResult st' = _authResult st /\
    emits_on (default_name "onAuthStateChanged") (emitted st') =
      emits_on (default_name "onAuthStateChanged") (emitted st) /\
    emits_on (default_name "onIdTokenChanged") (emitted st') =
      emits_on (default_name "onIdTokenChanged") (emitted st) /\
    emits_on (default_name "onUserChanged") (emitted st') =
      emits_on (default_name "onUserChanged") (emitted st).
Proof.
  apply (phone_event_leaves_session_untouched
           default_name_inj default_name_not_phone).
  - split; [repeat constructor|]. repeat split; simpl; auto.
  - lia.
Defined.

(** A request that sees [codeSent] twice, then [error], then
    [autoVerified]: its observers get [codeSent] and [error], once each. *)
Example verification_run :
  phases_of 5
    (observed
       (steps default_name default_message 2
          [Notify (phone_auth_state_changed "rk1" "codeSent" []);
           Notify (phone_auth_state_changed "rk2" "autoVerified" []);
           Notify (phone_auth_state_changed "rk1" "codeSent" []);
           OnUserChanged 3;
           Notify (auth_state_changed (Some (mkNativeUser "u1" [])));
           Notify (phone_auth_state_changed "rk1" "error" []);
           Notify (phone_auth_state_changed "rk1" "autoVerified" [])]
          (run (verificationStarted 5 "rk1") (constructor default_name "en" []))))
  = [codeSent; error].
Proof. vm_compute. reflexivity. Qed.

Lemma verification_ends_with_one_terminal_witness :
  let st := constructor default_name "en" [] in
  let l := [Notify (phone_auth_state_changed "rk1" "codeSent" []);
            Notify (phone_auth_state_changed "rk2" "autoVerified" []);
            Notify (phone_auth_state_changed "rk1" "codeSent" []);
            OnUserChanged 3;
            Notify (auth_state_changed (Some (mkNativeUser "u1" [])));
            Notify (phone_auth_state_changed "rk1" "error" []);
            Notify (phone_auth_state_changed "rk1" "autoVerified" [])] in
  let ps := phases_of 5
              (observed (steps default_name default_message 2 l
                           (run (verificationStarted 5 "rk1") st))) in
  wf default_name st /\
  hsubs 5 (subscriptions st) = [] /\
  phases_of 5 (observed st) = [] /\
  Forall (fun a => allowed 5 a = true) l /\
  count_occ Phase_eq_dec ps codeSent <= 1 /\
  count_occ Phase_eq_dec ps autoVerifyTimeout <= 1 /\
  count_occ Phase_eq_dec ps autoVerified + count_occ Phase_eq_dec ps error <= 1 /\
  (forall a p b, ps = (a ++ p :: b)%list -> is_terminal p = true -> b = []).
Proof.
  intros st l ps.
  assert (Hw : wf default_name st) by exact default_wf.
  assert (Hs : hsubs 5 (subscriptions st) = []) by reflexivity.
  assert (Ho : phases_of 5 (observed st) = []) by reflexivity.
  assert (Ha : Forall (fun a => allowed 5 a = true) l)
    by (repeat constructor).
  assert (Hf : 2 <= 2) by lia.
  repeat (split; [assumption|]).
  exact (@verification_ends_with_one_terminal default_name default_message
           default_name_inj default_name_not_phone 2 5 "rk1" l st
           Hw Hf Hs Ho Ha ps eq_refl).
Defined.

Lemma registration_replays_snapshot_once_witness :
  let st := run (onAuthStateChanged default_name 1)
                (constructor default_name "en" []) in
  let l := [OnUserChanged 4;
            GetRedirectResult;
            SignOut (Rejected (NativeError "auth/network-request-failed" "offline"));
            CallUnsubscribe (default_name "onUserChanged") 4;
            SetLanguageCode "fr"] in
  _authResult st = false /\
  Forall (fun a => quiet a = true) l /\
  invoked (steps default_name default_message 2 l st) = invoked st /\
  _authResult (steps default_name default_message 2 l st) = false.
Proof.
  intros st l.
  assert (Hf : _authResult st = false) by reflexivity.
  assert (Hq : Forall (fun a => quiet a = true) l) by (repeat constructor).
  split; [exact Hf|]. split; [exact Hq|].
  exact (proj2 (proj2 (proj2
           (@registration_replays_snapshot_once default_name default_message
              2 1 l st))) Hf Hq).
Defined.

(* ================================================================== *)
(** ** The default application: further runs *)
(* ================================================================== *)

(** The default application, signed in as ["u1"], with one function on each
    of two public topics. *)
Abbreviation signed_in :=
  (run (notify default_name 2 (auth_state_changed (Some (mkNativeUser "u1" []))))
       (run (onAuthStateChanged default_name 8)
            (run (onUserChanged default_name 7)
                 (constructor default_name "en" [])))).

Lemma signed_in_wf : wf default_name signed_in.
Proof. split; [repeat constructor|]. repeat split; simpl; auto. Qed.

Lemma signOut_clears_session_witness :
  wf default_name signed_in /\ 1 <= 1 /\
  exists st',
    signOut default_name 1 (Resolved tt) signed_in =
      (Returned (Resolved tt), st') /\
    currentUser st' = None /\
    _authResult st' = true /\
    next_ref st' = next_ref signed_in /\
    emitted st' =
      (emitted signed_in ++ [(default_name "onUserChanged", VUser None)])%list /\
    invoked st' =
      (invoked signed_in ++
       map (fun id => (id, VUser None))
           (fn_ids (SharedEventEmitter.listeners
                      (default_name "onUserChanged")
                      (subscriptions signed_in))))%list.
Proof.
  assert (Hf : 1 <= 1) by lia.
  split; [exact signed_in_wf|]. split; [exact Hf|].
  exact (@signOut_clears_session default_name default_name_inj 1 signed_in
           signed_in_wf Hf).
Defined.


Lemma resolved_operation_enables_replay_witness :
  let a := SignOut (Resolved tt) in
  let st := constructor default_name "en" [] in
  resolved_op a = true /\
  _authResult (step default_name default_message 1 a st) = true /\
  invoked (run (onAuthStateChanged default_name 3)
               (step default_name default_message 1 a st)) =
    (invoked (step default_name default_message 1 a st) ++
     [(3, VUser (currentUser (step default_name default_message 1 a st)))])%list.
Proof.
  intros a st.
  assert (Ha : resolved_op a = true) by reflexivity.
  split; [exact Ha|].
  exact (@resolved_operation_enables_replay default_name default_message
           1 a 3 st Ha).
Defined.

Lemma auth_notification_publishes_in_order_witness :
  let e := auth_id_token_changed None in
  wf default_name signed_in /\ 2 <= 2 /\ auth_payload e = Some None /\
  SharedEventEmitter.listeners (default_name (native_name e))
                               (subscriptions signed_in) = [closure_of e] /\
  exists st',
    notify default_name 2 e signed_in = (Returned tt, st') /\
    adapts None (currentUser st') /\
    _authResult st' = true /\
    emitted st' =
      (emitted signed_in ++
       [(default_name (native_name e), VAuthState None);
        (default_name "onUserChanged", VUser (currentUser st'));
        (default_name (public_of e), VUser (currentUser st'))])%list /\
    invoked st' =
      (invoked signed_in ++
       map (fun id => (id, VUser (currentUser st')))
           (fn_ids (SharedEventEmitter.listeners
                      (default_name "onUserChanged")
                      (subscriptions signed_in))) ++
       map (fun id => (id, VUser (currentUser st')))
           (fn_ids (SharedEventEmitter.listeners
                      (default_name (public_of e))
                      (subscriptions signed_in))))%list.
Proof.
  intros e.
  assert (Hf : 2 <= 2) by lia.
  assert (He : auth_payload e = Some None) by reflexivity.
  assert (Hl : SharedEventEmitter.listeners (default_name (native_name e))
                 (subscriptions signed_in) = [closure_of e]) by reflexivity.
  split; [exact signed_in_wf|]. split; [exact Hf|]. split; [exact He|].
  split; [exact Hl|].
  exact (@auth_notification_publishes_in_order default_name default_name_inj
           default_name_not_phone 2 e None signed_in signed_in_wf Hf He Hl).
Defined.

Lemma unsubscribed_function_is_never_called_witness :
  let st := run (unsubscribe (mkUnsubscribe (default_name "onUserChanged") (Fn 7)))
                signed_in in
  let es := [auth_state_changed None;
             phone_auth_state_changed "rk1" "codeSent" [];
             auth_id_token_changed (Some (mkNativeUser "u2" []))] in
  wf default_name st /\ 2 <= 2 /\
  (forall t, ~ In (t, Fn 7) (subscriptions st)) /\
  calls_of 7 (invoked (run (notify_all default_name 2 es) st)) =
  calls_of 7 (invoked st).
Proof.
  intros st es.
  assert (Hw : wf default_name st).
  { split; [repeat constructor|]. repeat split; simpl; auto. }
  assert (Hf : 2 <= 2) by lia.
  assert (Ha : forall t, ~ In (t, Fn 7) (subscriptions st)).
  { intros t. simpl. intros [H|[H|[H|[H|[]]]]]; discriminate H. }
  split; [exact Hw|]. split; [exact Hf|]. split; [exact Ha|].
  exact (@unsubscribed_function_is_never_called default_name default_name_inj
           default_name_not_phone 2 7 es st Hw Hf Ha).
Defined.

Lemma unsubscribe_undoes_registration_witness :
  (forall t, ~ In (t, Fn 9) (subscriptions signed_in)) /\
  undone (onAuthStateChanged default_name) 9 signed_in /\
  undone (onIdTokenChanged default_name) 9 signed_in /\
  undone (onUserChanged default_name) 9 signed_in.
Proof.
  assert (Ha : forall t, ~ In (t, Fn 9) (subscriptions signed_in)).
  { intros t. simpl. intros [H|[H|[H|[H|[H|[]]]]]]; discriminate H. }
  split; [exact Ha|].
  exact (@unsubscribe_undoes_registration default_name 9 signed_in Ha).
Defined.

Lemma languageCode_is_last_set_witness :
  let l := [Notify (auth_state_changed None);
            Emit (default_name "auth_state_changed") (VUser None);
            OnUserChanged 3;
            SignOut (Resolved tt);
            UseDeviceLanguage] in
  Forall (fun a => sets_language a = false) l /\
  languageCode_get
    (steps default_name default_message 2 l
       (run (languageCode_set "fr") signed_in)) =
  (Returned "fr",
   steps default_name default_message 2 l (run (languageCode_set "fr") signed_in)).
Proof.
  intros l.
  assert (Hl : Forall (fun a => sets_language a = false) l)
    by (repeat constructor).
  split; [exact Hl|].
  exact (@languageCode_is_last_set default_name default_message 2 "fr" l
           signed_in Hl).
Defined.

Lemma bridge_stays_installed_witness :
  let shared := [("other-topic", Fn 1)] in
  let l := [Emit (default_name "auth_state_changed") (VUser None);
            CallUnsubscribe (default_name "auth_state_changed") 1;
            VerificationStarted 5 "rk1";
            Notify (phone_auth_state_changed "rk1" "error" []);
            SignOut (Resolved tt)] in
  registry_ok default_name shared /\
  installed default_name
    (subscriptions (steps default_name default_message 2 l
                      (constructor default_name "en" shared))) /\
  registry_ok default_name
    (subscriptions (steps default_name default_message 2 l
                      (constructor default_name "en" shared))).
Proof.
  intros shared l.
  assert (Hr : registry_ok default_name shared) by (repeat constructor).
  split; [exact Hr|].
  exact (@bridge_stays_installed default_name default_message 2 "en" shared l Hr).
Defined.

Lemma notification_builds_new_snapshot_witness :
  let l := [Notify (auth_state_changed (Some (mkNativeUser "u1" [])));
            OnUserChanged 3] in
  let e := auth_id_token_changed (Some (mkNativeUser "u1" [])) in
  registry_ok default_name [] /\ 2 <= 2 /\
  Forall (fun a => is_emit a = false) l /\
  auth_payload e = Some (Some (mkNativeUser "u1" [])) /\
  exists u,
    currentUser (run (notify default_name 2 e)
                     (steps default_name default_message 2 l
                        (constructor default_name "en" []))) = Some u /\
    native u = mkNativeUser "u1" [] /\
    currentUser (run (notify default_name 2 e)
                     (steps default_name default_message 2 l
                        (constructor default_name "en" []))) <>
    currentUser (steps default_name default_message 2 l
                   (constructor default_name "en" [])).
Proof.
  intros l e.
  assert (Hr : registry_ok default_name []) by constructor.
  assert (Hf : 2 <= 2) by lia.
  assert (Hl : Forall (fun a => is_emit a = false) l) by (repeat constructor).
  assert (He : auth_payload e = Some (Some (mkNativeUser "u1" [])))
    by reflexivity.
  split; [exact Hr|]. split; [exact Hf|]. split; [exact Hl|].
  split; [exact He|].
  exact (@notification_builds_new_snapshot default_name default_message
           default_name_inj default_name_not_phone 2 "en" [] l e
           (mkNativeUser "u1" []) Hr Hf Hl He).
Defined.

Lemma every_change_is_announced_witness :
  let l := [OnUserChanged 3;
            SignInAnonymously (Resolved (mkNativeUser "u1" []));
            Notify (phone_auth_state_changed "rk1" "codeSent" []);
            Notify (auth_id_token_changed None);
            SignInAndRetrieveDataWithCustomToken "tok"
              (Resolved (mkNativeUserCredential (mkNativeUser "u2" []) None))] in
  registry_ok default_name [] /\ 2 <= 2 /\
  Forall (fun a => is_emit a = false) l /\
  announced default_name
    (steps default_name default_message 2 l (constructor default_name "en" [])).
Proof.
  intros l.
  assert (Hr : registry_ok default_name []) by constructor.
  assert (Hf : 2 <= 2) by lia.
  assert (Hl : Forall (fun a => is_emit a = false) l) by (repeat constructor).
  split; [exact Hr|]. split; [exact Hf|]. split; [exact Hl|].
  exact (@every_change_is_announced default_name default_message
           default_name_inj default_name_not_phone 2 "en" [] l Hr Hf Hl).
Defined.

